(** * Deploy the Cat: the client's sabotage scheduler and outcome reconciler,
      and the server's scripted deployment narrator.

    The client is the React component [App] of [client/src/App.tsx]; the
    server is the socket.io script with [simulateDeployment]. Line numbers in
    the comments are those of the two source files.

    Conventions of the embedding:
    - every [useState] cell of [App] that takes part in the game is a field of
      the record [App] below; the cells that only feed the display
      ([debugMode], [socketEvents], [isConnected], [timeUntilAttack]) are left
      out with the ping/pong test that belongs to them, as are the time
      stamps put in front of log lines;
    - JavaScript numbers that hold counts and milliseconds are [Z]; the
      real-valued results of [Math.random()] and the probabilities and
      intervals computed from them are exact rationals [Q];
    - the browser's timer table ([window.setTimeout] / [clearTimeout]), the
      clock ([Date.now()]) and the socket's outgoing messages are explicit
      fields; a timer callback is a constructor of [Callback] carrying the
      values its closure captured when it was created;
    - every call of [Math.random()] and the outcome of the random-comparator
      [sort] are read from an [Oracle] handed to the transition;
    - an event handler of the DOM runs against the latest render, so it reads
      the current cells; closures created inside effects and timers read the
      render they were created in, which is what [Render] records;
    - the state updates of one handler or callback are applied together and
      followed by one commit, in which the effects whose dependencies changed
      run against that render ([runEffects]); the updates the effects make
      are committed in turn ([commit]). *)

From Stdlib Require Import ZArith QArith Qround Qminmax List String Bool Lia.
From stdpp Require Import base decidable countable gmap sets pretty.
Import ListNotations.
Local Open Scope Z_scope.

(** ** Data model (App.tsx, lines 5-24) *)

Inductive ComponentType := BUILD | TEST | DEPLOY.

Global Instance ComponentType_eq_dec : EqDecision ComponentType.
Proof. solve_decision. Defined.

Global Instance ComponentType_countable : Countable ComponentType.
Proof.
  refine (inj_countable'
    (fun c => match c with BUILD => 0%nat | TEST => 1%nat | DEPLOY => 2%nat end)
    (fun n => match n with 0%nat => BUILD | 1%nat => TEST | _ => DEPLOY end) _).
  intros []; reflexivity.
Defined.

(** The string a [ComponentType] is, and its [toUpperCase()]. *)
Definition typeName (type : ComponentType) : string :=
  match type with BUILD => "build" | TEST => "test" | DEPLOY => "deploy" end.

Definition toUpperCase (type : ComponentType) : string :=
  match type with BUILD => "BUILD" | TEST => "TEST" | DEPLOY => "DEPLOY" end.

Record ComponentState := { placed : bool }.

Record ComponentStates := {
  build : ComponentState;
  test : ComponentState;
  deploy : ComponentState
}.

Record GameStats := {
  score : Z;
  deployments : Z;
  sabotages : Z;
  timeSpent : Z;
  failedDeployments : Z;
  streak : Z
}.

(** [states[type]] and [{...states, [type]: v}]. *)
Definition get (states : ComponentStates) (type : ComponentType) : ComponentState :=
  match type with
  | BUILD => build states
  | TEST => test states
  | DEPLOY => deploy states
  end.

Definition update (states : ComponentStates) (type : ComponentType) (v : ComponentState)
  : ComponentStates :=
  match type with
  | BUILD => {| build := v; test := test states; deploy := deploy states |}
  | TEST => {| build := build states; test := v; deploy := deploy states |}
  | DEPLOY => {| build := build states; test := test states; deploy := v |}
  end.

(** [Object.values(states)] and [Object.entries(states)], in key order. *)
Definition values (states : ComponentStates) : list ComponentState :=
  [build states; test states; deploy states].

Definition entries (states : ComponentStates) : list (ComponentType * ComponentState) :=
  [(BUILD, build states); (TEST, test states); (DEPLOY, deploy states)].

(** [Object.values(componentStates).filter(state => state.placed).length] *)
Definition placedCount (states : ComponentStates) : Z :=
  Z.of_nat (length (List.filter placed (values states))).

(** [Object.values(componentStates).every(state => state.placed)] *)
Definition allPlaced (states : ComponentStates) : bool :=
  forallb placed (values states).

(** [Object.entries(componentStates).filter(([_, state]) => state.placed)
      .map(([type, _]) => type)] *)
Definition currentPlacedComponents (states : ComponentStates) : list ComponentType :=
  map fst (List.filter (fun e => placed (snd e)) (entries states)).

Definition noneplaced : ComponentStates :=
  {| build := {| placed := false |};
     test := {| placed := false |};
     deploy := {| placed := false |} |}.

Inductive CatAnimation := idle | moving | prowling.

Inductive Socket := socketConnection.

(** The payload of the client's [deploymentStart] message (the time stamp
    apart). *)
Record DeploymentStart := {
  forceFailure : bool;
  failureChance : Q
}.

(** What the closures of one render see: the cells the scheduling effects and
    their timer callbacks read, and the identity of the [componentStates]
    object (React compares dependencies with [Object.is]). *)
Record Render := {
  r_componentStates : ComponentStates;
  r_componentStatesRef : nat;
  r_isDeploymentInProgress : bool;
  r_sabotageTimeoutId : option Z;
  r_catAggression : Z
}.

(** The functions handed to [setTimeout]. *)
Inductive Callback :=
| firstAttack (r : Render)          (* lines 204-212 *)
| nextSabotage (r : Render)         (* lines 333-344 *)
| retrySchedule (r : Render)        (* line 321: scheduleNextSabotage itself *)
| warning (target : ComponentType)  (* lines 138-140 *)
| resolution (target : ComponentType) (* lines 81-109 *)
| catIdle                           (* line 152 *)
| pipelineReset (succeeded : bool). (* lines 272-275 and 290-293 *)

Record Timer := {
  timerId : Z;
  due : Z;
  callback : Callback
}.

Record App := {
  gameStats : GameStats;
  componentStates : ComponentStates;
  componentStatesRef : nat;
  logs : list string;
  socket : option Socket;
  catAnimation : CatAnimation;
  forceUpdate : Z;
  catAggression : Z;
  shakingComponents : gset ComponentType;
  pendingAttacks : gset ComponentType;
  isDeploymentInProgress : bool;
  nextAttackTime : Q;
  sabotageTimeoutId : option Z;
  gameStartTime : Z;
  (* the browser *)
  now : Z;
  timers : list Timer;
  nextTimerId : Z;
  emitted : list DeploymentStart;
  (* the render each scheduling effect last ran in *)
  firstAttackMemo : option Render;
  nextAttackMemo : option Render
}.

(** Field updates: [with_x f s] is [s] with cell [x] replaced by [f x]. *)
Definition with_gameStats (f : GameStats -> GameStats) (s : App) : App :=
  {| gameStats := f (gameStats s); componentStates := componentStates s;
  componentStatesRef := componentStatesRef s; logs := logs s; socket := socket s;
  catAnimation := catAnimation s; forceUpdate := forceUpdate s; catAggression :=
  catAggression s; shakingComponents := shakingComponents s; pendingAttacks :=
  pendingAttacks s; isDeploymentInProgress := isDeploymentInProgress s; nextAttackTime :=
  nextAttackTime s; sabotageTimeoutId := sabotageTimeoutId s; gameStartTime :=
  gameStartTime s; now := now s; timers := timers s; nextTimerId := nextTimerId s; emitted
  := emitted s; firstAttackMemo := firstAttackMemo s; nextAttackMemo := nextAttackMemo s
  |}.

Definition with_componentStates (f : ComponentStates -> ComponentStates) (s : App) : App :=
  {| gameStats := gameStats s; componentStates := f (componentStates s);
  componentStatesRef := componentStatesRef s; logs := logs s; socket := socket s;
  catAnimation := catAnimation s; forceUpdate := forceUpdate s; catAggression :=
  catAggression s; shakingComponents := shakingComponents s; pendingAttacks :=
  pendingAttacks s; isDeploymentInProgress := isDeploymentInProgress s; nextAttackTime :=
  nextAttackTime s; sabotageTimeoutId := sabotageTimeoutId s; gameStartTime :=
  gameStartTime s; now := now s; timers := timers s; nextTimerId := nextTimerId s; emitted
  := emitted s; firstAttackMemo := firstAttackMemo s; nextAttackMemo := nextAttackMemo s
  |}.

Definition with_componentStatesRef (f : nat -> nat) (s : App) : App :=
  {| gameStats := gameStats s; componentStates := componentStates s; componentStatesRef :=
  f (componentStatesRef s); logs := logs s; socket := socket s; catAnimation :=
  catAnimation s; forceUpdate := forceUpdate s; catAggression := catAggression s;
  shakingComponents := shakingComponents s; pendingAttacks := pendingAttacks s;
  isDeploymentInProgress := isDeploymentInProgress s; nextAttackTime := nextAttackTime s;
  sabotageTimeoutId := sabotageTimeoutId s; gameStartTime := gameStartTime s; now := now
  s; timers := timers s; nextTimerId := nextTimerId s; emitted := emitted s;
  firstAttackMemo := firstAttackMemo s; nextAttackMemo := nextAttackMemo s |}.

Definition with_logs (f : list string -> list string) (s : App) : App :=
  {| gameStats := gameStats s; componentStates := componentStates s; componentStatesRef :=
  componentStatesRef s; logs := f (logs s); socket := socket s; catAnimation :=
  catAnimation s; forceUpdate := forceUpdate s; catAggression := catAggression s;
  shakingComponents := shakingComponents s; pendingAttacks := pendingAttacks s;
  isDeploymentInProgress := isDeploymentInProgress s; nextAttackTime := nextAttackTime s;
  sabotageTimeoutId := sabotageTimeoutId s; gameStartTime := gameStartTime s; now := now
  s; timers := timers s; nextTimerId := nextTimerId s; emitted := emitted s;
  firstAttackMemo := firstAttackMemo s; nextAttackMemo := nextAttackMemo s |}.

Definition with_socket (f : option Socket -> option Socket) (s : App) : App :=
  {| gameStats := gameStats s; componentStates := componentStates s; componentStatesRef :=
  componentStatesRef s; logs := logs s; socket := f (socket s); catAnimation :=
  catAnimation s; forceUpdate := forceUpdate s; catAggression := catAggression s;
  shakingComponents := shakingComponents s; pendingAttacks := pendingAttacks s;
  isDeploymentInProgress := isDeploymentInProgress s; nextAttackTime := nextAttackTime s;
  sabotageTimeoutId := sabotageTimeoutId s; gameStartTime := gameStartTime s; now := now
  s; timers := timers s; nextTimerId := nextTimerId s; emitted := emitted s;
  firstAttackMemo := firstAttackMemo s; nextAttackMemo := nextAttackMemo s |}.

Definition with_catAnimation (f : CatAnimation -> CatAnimation) (s : App) : App :=
  {| gameStats := gameStats s; componentStates := componentStates s; componentStatesRef :=
  componentStatesRef s; logs := logs s; socket := socket s; catAnimation := f
  (catAnimation s); forceUpdate := forceUpdate s; catAggression := catAggression s;
  shakingComponents := shakingComponents s; pendingAttacks := pendingAttacks s;
  isDeploymentInProgress := isDeploymentInProgress s; nextAttackTime := nextAttackTime s;
  sabotageTimeoutId := sabotageTimeoutId s; gameStartTime := gameStartTime s; now := now
  s; timers := timers s; nextTimerId := nextTimerId s; emitted := emitted s;
  firstAttackMemo := firstAttackMemo s; nextAttackMemo := nextAttackMemo s |}.

Definition with_forceUpdate (f : Z -> Z) (s : App) : App :=
  {| gameStats := gameStats s; componentStates := componentStates s; componentStatesRef :=
  componentStatesRef s; logs := logs s; socket := socket s; catAnimation := catAnimation
  s; forceUpdate := f (forceUpdate s); catAggression := catAggression s; shakingComponents
  := shakingComponents s; pendingAttacks := pendingAttacks s; isDeploymentInProgress :=
  isDeploymentInProgress s; nextAttackTime := nextAttackTime s; sabotageTimeoutId :=
  sabotageTimeoutId s; gameStartTime := gameStartTime s; now := now s; timers := timers s;
  nextTimerId := nextTimerId s; emitted := emitted s; firstAttackMemo := firstAttackMemo
  s; nextAttackMemo := nextAttackMemo s |}.

Definition with_catAggression (f : Z -> Z) (s : App) : App :=
  {| gameStats := gameStats s; componentStates := componentStates s; componentStatesRef :=
  componentStatesRef s; logs := logs s; socket := socket s; catAnimation := catAnimation
  s; forceUpdate := forceUpdate s; catAggression := f (catAggression s); shakingComponents
  := shakingComponents s; pendingAttacks := pendingAttacks s; isDeploymentInProgress :=
  isDeploymentInProgress s; nextAttackTime := nextAttackTime s; sabotageTimeoutId :=
  sabotageTimeoutId s; gameStartTime := gameStartTime s; now := now s; timers := timers s;
  nextTimerId := nextTimerId s; emitted := emitted s; firstAttackMemo := firstAttackMemo
  s; nextAttackMemo := nextAttackMemo s |}.

Definition with_shakingComponents (f : gset ComponentType -> gset ComponentType) (s : App) : App :=
  {| gameStats := gameStats s; componentStates := componentStates s; componentStatesRef :=
  componentStatesRef s; logs := logs s; socket := socket s; catAnimation := catAnimation
  s; forceUpdate := forceUpdate s; catAggression := catAggression s; shakingComponents :=
  f (shakingComponents s); pendingAttacks := pendingAttacks s; isDeploymentInProgress :=
  isDeploymentInProgress s; nextAttackTime := nextAttackTime s; sabotageTimeoutId :=
  sabotageTimeoutId s; gameStartTime := gameStartTime s; now := now s; timers := timers s;
  nextTimerId := nextTimerId s; emitted := emitted s; firstAttackMemo := firstAttackMemo
  s; nextAttackMemo := nextAttackMemo s |}.

Definition with_pendingAttacks (f : gset ComponentType -> gset ComponentType) (s : App) : App :=
  {| gameStats := gameStats s; componentStates := componentStates s; componentStatesRef :=
  componentStatesRef s; logs := logs s; socket := socket s; catAnimation := catAnimation
  s; forceUpdate := forceUpdate s; catAggression := catAggression s; shakingComponents :=
  shakingComponents s; pendingAttacks := f (pendingAttacks s); isDeploymentInProgress :=
  isDeploymentInProgress s; nextAttackTime := nextAttackTime s; sabotageTimeoutId :=
  sabotageTimeoutId s; gameStartTime := gameStartTime s; now := now s; timers := timers s;
  nextTimerId := nextTimerId s; emitted := emitted s; firstAttackMemo := firstAttackMemo
  s; nextAttackMemo := nextAttackMemo s |}.

Definition with_isDeploymentInProgress (f : bool -> bool) (s : App) : App :=
  {| gameStats := gameStats s; componentStates := componentStates s; componentStatesRef :=
  componentStatesRef s; logs := logs s; socket := socket s; catAnimation := catAnimation
  s; forceUpdate := forceUpdate s; catAggression := catAggression s; shakingComponents :=
  shakingComponents s; pendingAttacks := pendingAttacks s; isDeploymentInProgress := f
  (isDeploymentInProgress s); nextAttackTime := nextAttackTime s; sabotageTimeoutId :=
  sabotageTimeoutId s; gameStartTime := gameStartTime s; now := now s; timers := timers s;
  nextTimerId := nextTimerId s; emitted := emitted s; firstAttackMemo := firstAttackMemo
  s; nextAttackMemo := nextAttackMemo s |}.

Definition with_nextAttackTime (f : Q -> Q) (s : App) : App :=
  {| gameStats := gameStats s; componentStates := componentStates s; componentStatesRef :=
  componentStatesRef s; logs := logs s; socket := socket s; catAnimation := catAnimation
  s; forceUpdate := forceUpdate s; catAggression := catAggression s; shakingComponents :=
  shakingComponents s; pendingAttacks := pendingAttacks s; isDeploymentInProgress :=
  isDeploymentInProgress s; nextAttackTime := f (nextAttackTime s); sabotageTimeoutId :=
  sabotageTimeoutId s; gameStartTime := gameStartTime s; now := now s; timers := timers s;
  nextTimerId := nextTimerId s; emitted := emitted s; firstAttackMemo := firstAttackMemo
  s; nextAttackMemo := nextAttackMemo s |}.

Definition with_sabotageTimeoutId (f : option Z -> option Z) (s : App) : App :=
  {| gameStats := gameStats s; componentStates := componentStates s; componentStatesRef :=
  componentStatesRef s; logs := logs s; socket := socket s; catAnimation := catAnimation
  s; forceUpdate := forceUpdate s; catAggression := catAggression s; shakingComponents :=
  shakingComponents s; pendingAttacks := pendingAttacks s; isDeploymentInProgress :=
  isDeploymentInProgress s; nextAttackTime := nextAttackTime s; sabotageTimeoutId := f
  (sabotageTimeoutId s); gameStartTime := gameStartTime s; now := now s; timers := timers
  s; nextTimerId := nextTimerId s; emitted := emitted s; firstAttackMemo :=
  firstAttackMemo s; nextAttackMemo := nextAttackMemo s |}.

Definition with_now (f : Z -> Z) (s : App) : App :=
  {| gameStats := gameStats s; componentStates := componentStates s; componentStatesRef :=
  componentStatesRef s; logs := logs s; socket := socket s; catAnimation := catAnimation
  s; forceUpdate := forceUpdate s; catAggression := catAggression s; shakingComponents :=
  shakingComponents s; pendingAttacks := pendingAttacks s; isDeploymentInProgress :=
  isDeploymentInProgress s; nextAttackTime := nextAttackTime s; sabotageTimeoutId :=
  sabotageTimeoutId s; gameStartTime := gameStartTime s; now := f (now s); timers :=
  timers s; nextTimerId := nextTimerId s; emitted := emitted s; firstAttackMemo :=
  firstAttackMemo s; nextAttackMemo := nextAttackMemo s |}.

Definition with_timers (f : list Timer -> list Timer) (s : App) : App :=
  {| gameStats := gameStats s; componentStates := componentStates s; componentStatesRef :=
  componentStatesRef s; logs := logs s; socket := socket s; catAnimation := catAnimation
  s; forceUpdate := forceUpdate s; catAggression := catAggression s; shakingComponents :=
  shakingComponents s; pendingAttacks := pendingAttacks s; isDeploymentInProgress :=
  isDeploymentInProgress s; nextAttackTime := nextAttackTime s; sabotageTimeoutId :=
  sabotageTimeoutId s; gameStartTime := gameStartTime s; now := now s; timers := f (timers
  s); nextTimerId := nextTimerId s; emitted := emitted s; firstAttackMemo :=
  firstAttackMemo s; nextAttackMemo := nextAttackMemo s |}.

Definition with_nextTimerId (f : Z -> Z) (s : App) : App :=
  {| gameStats := gameStats s; componentStates := componentStates s; componentStatesRef :=
  componentStatesRef s; logs := logs s; socket := socket s; catAnimation := catAnimation
  s; forceUpdate := forceUpdate s; catAggression := catAggression s; shakingComponents :=
  shakingComponents s; pendingAttacks := pendingAttacks s; isDeploymentInProgress :=
  isDeploymentInProgress s; nextAttackTime := nextAttackTime s; sabotageTimeoutId :=
  sabotageTimeoutId s; gameStartTime := gameStartTime s; now := now s; timers := timers s;
  nextTimerId := f (nextTimerId s); emitted := emitted s; firstAttackMemo :=
  firstAttackMemo s; nextAttackMemo := nextAttackMemo s |}.

Definition with_emitted (f : list DeploymentStart -> list DeploymentStart) (s : App) : App :=
  {| gameStats := gameStats s; componentStates := componentStates s; componentStatesRef :=
  componentStatesRef s; logs := logs s; socket := socket s; catAnimation := catAnimation
  s; forceUpdate := forceUpdate s; catAggression := catAggression s; shakingComponents :=
  shakingComponents s; pendingAttacks := pendingAttacks s; isDeploymentInProgress :=
  isDeploymentInProgress s; nextAttackTime := nextAttackTime s; sabotageTimeoutId :=
  sabotageTimeoutId s; gameStartTime := gameStartTime s; now := now s; timers := timers s;
  nextTimerId := nextTimerId s; emitted := f (emitted s); firstAttackMemo :=
  firstAttackMemo s; nextAttackMemo := nextAttackMemo s |}.

Definition with_firstAttackMemo (f : option Render -> option Render) (s : App) : App :=
  {| gameStats := gameStats s; componentStates := componentStates s; componentStatesRef :=
  componentStatesRef s; logs := logs s; socket := socket s; catAnimation := catAnimation
  s; forceUpdate := forceUpdate s; catAggression := catAggression s; shakingComponents :=
  shakingComponents s; pendingAttacks := pendingAttacks s; isDeploymentInProgress :=
  isDeploymentInProgress s; nextAttackTime := nextAttackTime s; sabotageTimeoutId :=
  sabotageTimeoutId s; gameStartTime := gameStartTime s; now := now s; timers := timers s;
  nextTimerId := nextTimerId s; emitted := emitted s; firstAttackMemo := f
  (firstAttackMemo s); nextAttackMemo := nextAttackMemo s |}.

Definition with_nextAttackMemo (f : option Render -> option Render) (s : App) : App :=
  {| gameStats := gameStats s; componentStates := componentStates s; componentStatesRef :=
  componentStatesRef s; logs := logs s; socket := socket s; catAnimation := catAnimation
  s; forceUpdate := forceUpdate s; catAggression := catAggression s; shakingComponents :=
  shakingComponents s; pendingAttacks := pendingAttacks s; isDeploymentInProgress :=
  isDeploymentInProgress s; nextAttackTime := nextAttackTime s; sabotageTimeoutId :=
  sabotageTimeoutId s; gameStartTime := gameStartTime s; now := now s; timers := timers s;
  nextTimerId := nextTimerId s; emitted := emitted s; firstAttackMemo := firstAttackMemo
  s; nextAttackMemo := f (nextAttackMemo s) |}.

(** ** The React setters and the browser's timers *)

(** [setLogs(prev => [...prev, message])]; the time stamp is left out. *)
Definition addLog (message : string) : App -> App :=
  with_logs (fun prev => prev ++ [message]).

(** [setComponentStates(newObject)]: the cell holds a new object. *)
Definition setComponentStates (newStates : ComponentStates) (s : App) : App :=
  with_componentStatesRef S (with_componentStates (fun _ => newStates) s).

(** [window.setTimeout(cb, delay)]: returns the handle, a positive integer. *)
Definition setTimeout (cb : Callback) (delay : Z) (s : App) : Z * App :=
  let id := nextTimerId s in
  (id,
   with_nextTimerId (fun n => n + 1)
     (with_timers
        (fun ts => ts ++ [{| timerId := id; due := now s + Z.max 0 delay; callback := cb |}])
        s)).

Definition clearTimeout (id : Z) : App -> App :=
  with_timers (List.filter (fun t => negb (timerId t =? id))).

(** JavaScript truthiness of a [number | null] cell. *)
Definition truthy (id : option Z) : bool :=
  match id with
  | Some n => negb (n =? 0)
  | None => false
  end.

Definition Qltb (x y : Q) : bool := negb (Qle_bool y x).

(** [Math.round] of a rational: the nearest integer, halves upwards. *)
Definition round (x : Q) : Z := Qfloor (x + (1 # 2))%Q.

(** What a transition reads from [Math.random()] and from the shuffle. *)
Record Oracle := {
  aggressionRoll : Q;       (* line 118 *)
  targetRoll : Q;           (* line 128 *)
  shuffledComponents : list ComponentType;  (* line 133 *)
  firstVariation : Q;       (* line 197 *)
  nextVariation : Q;        (* line 312 *)
  failureRoll : Q           (* line 435 *)
}.

(** ** Warning system (lines 75-110) *)

Definition startComponentWarning (targetComponent : ComponentType) (s : App) : App :=
  let s := with_shakingComponents (fun prev => prev ∪ {[targetComponent]}) s in
  let s := with_pendingAttacks (fun prev => prev ∪ {[targetComponent]}) s in
  let s := addLog ("⚠️ " +:+ toUpperCase targetComponent
                   +:+ " component is unstable! Cat is approaching!") s in
  snd (setTimeout (resolution targetComponent) 5000 s).

(** The callback of the 5000 ms timer (lines 81-109). *)
Definition resolveWarning (targetComponent : ComponentType) (s : App) : App :=
  let s :=
    if bool_decide (targetComponent ∈ pendingAttacks s) then
      if placed (get (componentStates s) targetComponent) then
        setComponentStates
          (update (componentStates s) targetComponent {| placed := false |})
          (addLog ("🐱 Cat knocked off the " +:+ toUpperCase targetComponent
                   +:+ " component!") s)
      else s
    else s in
  let s := with_pendingAttacks (fun prev => prev ∖ {[targetComponent]}) s in
  with_shakingComponents (fun prev => prev ∖ {[targetComponent]}) s.

(** ** Cat sabotage (lines 113-153) *)

(** Lines 117-130: the number of components to sabotage and the line logged
    with it. [catAggression] is the value the [useCallback] closure holds. *)
Definition chooseAttack (catAggression : Z) (o : Oracle)
    (placedComponents : list ComponentType) : Z * option string :=
  let length := Z.of_nat (List.length placedComponents) in
  if (3 <=? catAggression) && Qltb (aggressionRoll o) 0.2 && (2 <=? length) then
    (2, Some "🐱 Cat is feeling extra mischievous - targeting multiple components!")
  else if (5 <=? catAggression) && Qltb (aggressionRoll o) 0.1 && (3 <=? length) then
    (3, Some "🐱 CAT RAMPAGE! All components are in danger!")
  else
    (1, option_map
          (fun target => "🐱 Cat is moving to sabotage the " +:+ toUpperCase target
                         +:+ " component!")
          (nth_error placedComponents
             (Z.to_nat (Qfloor (targetRoll o * inject_Z length))))).

Definition componentsToSabotage (catAggression : Z) (o : Oracle)
    (placedComponents : list ComponentType) : Z :=
  fst (chooseAttack catAggression o placedComponents).

(** [shuffledComponents.slice(0, Math.min(componentsToSabotage, length))] *)
Definition targetsToSabotage (catAggression : Z) (o : Oracle)
    (placedComponents : list ComponentType) : list ComponentType :=
  firstn
    (Z.to_nat (Z.min (componentsToSabotage catAggression o placedComponents)
                     (Z.of_nat (List.length placedComponents))))
    (shuffledComponents o).

(** [targets.forEach((target, index) => setTimeout(..., index * 1500))] *)
Fixpoint scheduleWarnings (targets : list ComponentType) (index : Z) (s : App) : App :=
  match targets with
  | [] => s
  | target :: rest =>
      scheduleWarnings rest (index + 1) (snd (setTimeout (warning target) (index * 1500) s))
  end.

Definition performCatSabotage (catAggression : Z) (o : Oracle)
    (placedComponents : list ComponentType) (s : App) : App :=
  let s := with_catAnimation (fun _ => moving) s in
  let s :=
    match snd (chooseAttack catAggression o placedComponents) with
    | Some line => addLog line s
    | None => s
    end in
  let targets := targetsToSabotage catAggression o placedComponents in
  let s := scheduleWarnings targets 0 s in
  let s :=
    with_gameStats
      (fun prev =>
         {| score := score prev; deployments := deployments prev;
            sabotages := sabotages prev + Z.of_nat (List.length targets);
            timeSpent := timeSpent prev; failedDeployments := failedDeployments prev;
            streak := streak prev |}) s in
  let s := with_forceUpdate (fun f => f + 1) s in
  snd (setTimeout catIdle 6000 s).

(** ** Game timer (lines 156-174): the callback of the 1000 ms interval *)

Definition gameTick (s : App) : App :=
  let elapsed := (now s - gameStartTime s) / 1000 in
  let newAggression := Z.min (elapsed / 60 + 1) 5 in
  let s :=
    if negb (newAggression =? catAggression s) then
      addLog ("🐱 Cat is getting more aggressive! (Level " +:+ pretty newAggression +:+ ")")
        (with_catAggression (fun _ => newAggression) s)
    else s in
  with_gameStats
    (fun prev =>
       {| score := score prev; deployments := deployments prev;
          sabotages := sabotages prev; timeSpent := elapsed;
          failedDeployments := failedDeployments prev; streak := streak prev |}) s.

(** ** The two scheduling effects (lines 189-219 and 303-360) *)

Definition render (s : App) : Render :=
  {| r_componentStates := componentStates s;
     r_componentStatesRef := componentStatesRef s;
     r_isDeploymentInProgress := isDeploymentInProgress s;
     r_sabotageTimeoutId := sabotageTimeoutId s;
     r_catAggression := catAggression s |}.

(** [Math.max(15000, baseTime - aggressionReduction + randomVariation)] *)
Definition getIntervalTime (catAggression : Z) (random : Q) : Q :=
  let baseTime := 30000%Q in
  let aggressionReduction := inject_Z ((catAggression - 1) * 4000) in
  let randomVariation := (random * 10000)%Q in
  Qmax 15000 (baseTime - aggressionReduction + randomVariation).

Definition announceAttack (nextInterval : Q) : string :=
  "🐱 Cat will attack in " +:+ pretty (round (nextInterval / 1000)) +:+ " seconds...".

(** Lines 194-215, in the render [r]. *)
Definition scheduleFirstAttack (o : Oracle) (r : Render) (s : App) : App :=
  let nextInterval := getIntervalTime (r_catAggression r) (firstVariation o) in
  let attackTime := (inject_Z (now s) + nextInterval)%Q in
  let s := with_nextAttackTime (fun _ => attackTime) s in
  let s := addLog (announceAttack nextInterval) s in
  let '(timeoutId, s) := setTimeout (firstAttack r) (Qfloor nextInterval) s in
  with_sabotageTimeoutId (fun _ => Some timeoutId) s.

Definition firstAttackEffect (o : Oracle) (r : Render) (s : App) : App :=
  if (0 <? placedCount (r_componentStates r))
     && negb (r_isDeploymentInProgress r)
     && negb (truthy (r_sabotageTimeoutId r))
  then scheduleFirstAttack o r s
  else s.

(** Lines 316-347, in the render [r]. *)
Definition scheduleNextSabotage (o : Oracle) (r : Render) (s : App) : App :=
  if (placedCount (r_componentStates r) =? 0) || r_isDeploymentInProgress r then
    let '(timeoutId, s) := setTimeout (retrySchedule r) 5000 s in
    with_sabotageTimeoutId (fun _ => Some timeoutId) s
  else
    let nextInterval := getIntervalTime (r_catAggression r) (nextVariation o) in
    let attackTime := (inject_Z (now s) + nextInterval)%Q in
    let s := with_nextAttackTime (fun _ => attackTime) s in
    let s := addLog (announceAttack nextInterval) s in
    let '(timeoutId, s) := setTimeout (nextSabotage r) (Qfloor nextInterval) s in
    with_sabotageTimeoutId (fun _ => Some timeoutId) s.

(** Lines 305-307 and 356-358: [if (sabotageTimeoutId) clearTimeout(...)]. *)
Definition clearSabotageTimeout (r : Render) (s : App) : App :=
  match r_sabotageTimeoutId r with
  | Some id => if truthy (Some id) then clearTimeout id s else s
  | None => s
  end.

Definition nextSabotageEffect (o : Oracle) (r : Render) (s : App) : App :=
  let s := clearSabotageTimeout r s in
  if (0 <? placedCount (r_componentStates r)) && negb (r_isDeploymentInProgress r)
  then scheduleNextSabotage o r s
  else s.

(** Dependency arrays: [[componentStates, isDeploymentInProgress,
    sabotageTimeoutId, catAggression, addLog, performCatSabotage]] and
    [[catAggression, isDeploymentInProgress, componentStates, addLog,
    performCatSabotage]]; [addLog] never changes and [performCatSabotage]
    changes with [catAggression]. *)
Definition firstAttackDepsChanged (old new : Render) : bool :=
  negb (bool_decide (r_componentStatesRef old = r_componentStatesRef new))
  || negb (eqb (r_isDeploymentInProgress old) (r_isDeploymentInProgress new))
  || negb (bool_decide (r_sabotageTimeoutId old = r_sabotageTimeoutId new))
  || negb (r_catAggression old =? r_catAggression new).

Definition nextSabotageDepsChanged (old new : Render) : bool :=
  negb (r_catAggression old =? r_catAggression new)
  || negb (eqb (r_isDeploymentInProgress old) (r_isDeploymentInProgress new))
  || negb (bool_decide (r_componentStatesRef old = r_componentStatesRef new)).

(** One commit of React: the effects whose dependencies changed since they
    last ran are run against the render just committed, clean-ups first. *)
Definition runEffects (o : Oracle) (s : App) : App :=
  let r := render s in
  let first :=
    match firstAttackMemo s with
    | Some old => firstAttackDepsChanged old r
    | None => true
    end in
  let next :=
    match nextAttackMemo s with
    | Some old => nextSabotageDepsChanged old r
    | None => true
    end in
  let s :=
    match nextAttackMemo s with
    | Some old => if next then clearSabotageTimeout old s else s
    | None => s
    end in
  let s :=
    if first then with_firstAttackMemo (fun _ => Some r) (firstAttackEffect o r s) else s in
  if next then with_nextAttackMemo (fun _ => Some r) (nextSabotageEffect o r s) else s.

(** The cells the effects set are rendered again, and the effects that depend
    on them run once more; a third commit finds nothing to do
    ([commit_settled] below). *)
Definition commit (o : Oracle) (s : App) : App :=
  runEffects o (runEffects o s).

(** ** Socket handlers (lines 228-295) *)

Definition onConnect : App -> App := addLog "🟢 Connected to server".

Definition onDisconnect : App -> App := addLog "🔴 Disconnected from server".

Definition onDeploymentLog (message : string) : App -> App := addLog message.

(** Lines 447-457. *)
Definition resetComponents (s : App) : App :=
  let s := setComponentStates noneplaced s in
  let s := with_shakingComponents (fun _ => ∅) s in
  let s := with_pendingAttacks (fun _ => ∅) s in
  let s := with_sabotageTimeoutId (fun _ => None) s in
  addLog "🔄 Components reset" s.

(** Lines 251-295. The handler is registered by an effect that does not
    depend on [gameStats]: the log line reads the [gameStats] of the render
    the effect ran in, [closureStats]; the updaters read the current cell. *)
Definition onDeploymentComplete (closureStats : GameStats) (success : bool) (s : App)
  : App :=
  let s := with_isDeploymentInProgress (fun _ => false) s in
  if success then
    let s :=
      with_gameStats
        (fun prev =>
           let streakBonus := if 3 <=? streak prev then 50 else 0 in
           let totalPoints := 100 + streakBonus in
           {| score := score prev + totalPoints;
              deployments := deployments prev + 1;
              sabotages := sabotages prev; timeSpent := timeSpent prev;
              failedDeployments := failedDeployments prev;
              streak := streak prev + 1 |}) s in
    let s := with_forceUpdate (fun f => f + 1) s in
    let s :=
      addLog ("🎉 Deployment successful! +"
              +:+ pretty (100 + (if 3 <=? streak closureStats then 50 else 0))
              +:+ " points") s in
    snd (setTimeout (pipelineReset true) 2000 s)
  else
    let s :=
      with_gameStats
        (fun prev =>
           {| score := Z.max 0 (score prev - 25);
              deployments := deployments prev;
              sabotages := sabotages prev; timeSpent := timeSpent prev;
              failedDeployments := failedDeployments prev + 1;
              streak := 0 |}) s in
    let s := with_forceUpdate (fun f => f + 1) s in
    let s := addLog "💥 Deployment failed! -25 points. Streak broken!" s in
    snd (setTimeout (pipelineReset false) 2000 s).

(** The callbacks of the 2000 ms timers (lines 272-275 and 290-293). *)
Definition resetPipeline (succeeded : bool) (s : App) : App :=
  let s := resetComponents s in
  if succeeded then addLog "🔄 Pipeline reset for next deployment!" s
  else addLog "🔄 Pipeline reset - try again!" s.

(** ** Drag and drop (lines 362-407) *)

Definition handleDragStart (componentType : ComponentType) : App -> App :=
  addLog ("📦 Picked up " +:+ toUpperCase componentType +:+ " component").

Definition handleDrop (componentType dropZoneType : ComponentType) (s : App) : App :=
  if bool_decide (componentType = dropZoneType) then
    let prev := componentStates s in
    let newStates := update prev componentType {| placed := true |} in
    let wasEmpty := forallb (fun state => negb (placed state)) (values prev) in
    let s :=
      if wasEmpty && (placedCount newStates =? 1)
      then addLog "🐱 Cat has noticed your pipeline... timer started!" s
      else s in
    let s := setComponentStates newStates s in
    let s := with_shakingComponents (fun prev => prev ∖ {[componentType]}) s in
    addLog ("✅ " +:+ toUpperCase componentType +:+ " component placed correctly!") s
  else
    addLog ("❌ " +:+ toUpperCase componentType +:+ " must go in the "
            +:+ toUpperCase componentType +:+ " slot!") s.

(** ** Deployment (lines 409-445) *)

Definition totalFailureChance (s : App) : Q :=
  let baseFailureChance := 0.15%Q in
  let aggressionPenalty := (inject_Z (catAggression s - 1) * 0.05)%Q in
  let failureStreakPenalty := (inject_Z (failedDeployments (gameStats s)) * 0.02)%Q in
  let successStreakBonus := (inject_Z (deployments (gameStats s)) * 0.01)%Q in
  let shakingPenalty := (inject_Z (Z.of_nat (size (shakingComponents s))) * 0.1)%Q in
  Qmax 0.05
    (Qmin 0.4
       (baseFailureChance + aggressionPenalty + failureStreakPenalty + shakingPenalty
        - successStreakBonus)).

(** [socket?.emit('deploymentStart', message)] *)
Definition emit (message : DeploymentStart) (s : App) : App :=
  match socket s with
  | Some _ => with_emitted (fun sent => sent ++ [message]) s
  | None => s
  end.

Definition startDeployment (o : Oracle) (s : App) : App :=
  if negb (allPlaced (componentStates s)) then
    addLog "❌ All components must be placed before deployment!" s
  else if isDeploymentInProgress s then
    addLog "❌ Deployment already in progress!" s
  else
    let chance := totalFailureChance s in
    let willFail := Qltb (failureRoll o) chance in
    let s := with_isDeploymentInProgress (fun _ => true) s in
    let s :=
      addLog ("🚀 Starting deployment... (" +:+ pretty (round (chance * 100))
              +:+ "% failure risk)") s in
    emit {| forceFailure := willFail; failureChance := chance |} s.

(** ** Emergency fix (lines 460-487) *)

Definition emergencyFix (s : App) : App :=
  if bool_decide (size (shakingComponents s) = 0%nat) then
    addLog "❌ No components need emergency fixing!" s
  else
    let cost := Z.of_nat (size (shakingComponents s)) * 25 in
    if score (gameStats s) <? cost then
      addLog ("❌ Need " +:+ pretty cost +:+ " points for emergency fix! (Current: "
              +:+ pretty (score (gameStats s)) +:+ ")") s
    else
      let attacksBeingCancelled := Z.of_nat (size (pendingAttacks s)) in
      let s := with_pendingAttacks (fun _ => ∅) s in
      let s :=
        with_gameStats
          (fun prev =>
             {| score := score prev - cost; deployments := deployments prev;
                sabotages := sabotages prev; timeSpent := timeSpent prev;
                failedDeployments := failedDeployments prev; streak := streak prev |}) s in
      let s := with_shakingComponents (fun _ => ∅) s in
      let s :=
        addLog ("🔧 Emergency fix applied! -" +:+ pretty cost +:+ " points. Cancelled "
                +:+ pretty attacksBeingCancelled +:+ " pending attacks!") s in
      with_forceUpdate (fun f => f + 1) s.

(** ** The component as a transition system *)

Definition initialStats : GameStats :=
  {| score := 0; deployments := 0; sabotages := 0; timeSpent := 0;
     failedDeployments := 0; streak := 0 |}.

(** The first render, at wall-clock time [startTime], before any effect. *)
Definition initial (startTime : Z) : App :=
  {| gameStats := initialStats;
     componentStates := noneplaced;
     componentStatesRef := 0;
     logs := ["🎮 Deploy the Cat loaded! Drag components to start."];
     socket := None;
     catAnimation := idle;
     forceUpdate := 0;
     catAggression := 1;
     shakingComponents := ∅;
     pendingAttacks := ∅;
     isDeploymentInProgress := false;
     nextAttackTime := 0;
     sabotageTimeoutId := None;
     gameStartTime := startTime;
     now := startTime;
     timers := [];
     nextTimerId := 1;
     emitted := [];
     firstAttackMemo := None;
     nextAttackMemo := None |}.

(** The effects of the first commit: the socket is created (line 226) and
    both scheduling effects run. *)
Definition mount (o : Oracle) (startTime : Z) : App :=
  commit o (with_socket (fun _ => Some socketConnection) (initial startTime)).

(** The random comparator only reorders: the shuffle has the elements of the
    array it copies. *)
Definition count (type : ComponentType) (l : list ComponentType) : nat :=
  length (List.filter (fun x => bool_decide (x = type)) l).

Definition isShuffleOf (shuffled original : list ComponentType) : bool :=
  forallb (fun type => Nat.eqb (count type shuffled) (count type original))
    [BUILD; TEST; DEPLOY].

Definition isRandom (x : Q) : bool := Qle_bool 0 x && Qltb x 1.

(** Every [Math.random()] is in [0, 1). *)
Definition validOracle (o : Oracle) : bool :=
  isRandom (aggressionRoll o) && isRandom (targetRoll o)
  && isRandom (firstVariation o) && isRandom (nextVariation o)
  && isRandom (failureRoll o).

(** Lines 205-211 and 334-340, in the render [r] of the closure. [None]: the
    oracle's shuffle is no reordering of the array. *)
Definition attack (o : Oracle) (r : Render) (s : App) : option App :=
  let current := currentPlacedComponents (r_componentStates r) in
  if (0 <? Z.of_nat (length current)) && negb (r_isDeploymentInProgress r) then
    if isShuffleOf (shuffledComponents o) current
    then Some (performCatSabotage (r_catAggression r) o current s)
    else None
  else Some s.

Definition invoke (o : Oracle) (cb : Callback) (s : App) : option App :=
  match cb with
  | firstAttack r => attack o r s
  | nextSabotage r => option_map (scheduleNextSabotage o r) (attack o r s)
  | retrySchedule r => Some (scheduleNextSabotage o r s)
  | warning target => Some (startComponentWarning target s)
  | resolution target => Some (resolveWarning target s)
  | catIdle => Some (with_catAnimation (fun _ => idle) s)
  | pipelineReset succeeded => Some (resetPipeline succeeded s)
  end.

Inductive Event :=
| dragStart (componentType : ComponentType)
| drop (componentType dropZoneType : ComponentType)
| clickDeploy
| clickReset
| clickEmergencyFix
| connect
| disconnect
| deploymentLog (message : string)
| deploymentComplete (success : bool)
| gameTimer
| elapse (t : Z)
| timeout (id : Z).

Definition findTimer (id : Z) (s : App) : option Timer :=
  find (fun t => timerId t =? id) (timers s).

(** What the handler of an event does, before React commits. The clock moves
    only with [elapse], and never past a timer that is due; a timer fires
    once its time has come, and leaves the table as it fires. *)
Definition handle (o : Oracle) (ev : Event) (s : App) : option App :=
  match ev with
  | dragStart componentType => Some (handleDragStart componentType s)
  | drop componentType dropZoneType => Some (handleDrop componentType dropZoneType s)
  | clickDeploy => Some (startDeployment o s)
  | clickReset => Some (resetComponents s)
  | clickEmergencyFix => Some (emergencyFix s)
  | connect => Some (onConnect s)
  | disconnect => Some (onDisconnect s)
  | deploymentLog message => Some (onDeploymentLog message s)
  | deploymentComplete success => Some (onDeploymentComplete initialStats success s)
  | gameTimer => Some (gameTick s)
  | elapse t =>
      if (now s <=? t) && forallb (fun tm => t <=? due tm) (timers s)
      then Some (with_now (fun _ => t) s)
      else None
  | timeout id =>
      match findTimer id s with
      | Some tm =>
          if due tm <=? now s then invoke o (callback tm) (clearTimeout id s) else None
      | None => None
      end
  end.

Definition step (o : Oracle) (ev : Event) (s : App) : option App :=
  if validOracle o then option_map (commit o) (handle o ev s) else None.

Fixpoint run (trace : list (Oracle * Event)) (s : App) : option App :=
  match trace with
  | [] => Some s
  | (o, ev) :: rest =>
      match step o ev s with
      | Some s' => run rest s'
      | None => None
      end
  end.

(** The states of a session: the component is mounted and events follow. *)
Inductive reachable : App -> Prop :=
| reachable_mount o startTime : reachable (mount o startTime)
| reachable_step o ev s s' : reachable s -> step o ev s = Some s' -> reachable s'.

(** ** The server: [simulateDeployment] and the [deploymentStart] handler *)

Module Server.

Inductive Level := info | success | warning | error.

Record Step := {
  message : string;
  level : Level
}.

Record Scenario := {
  failAt : Z;
  steps : list Step
}.

Definition successSteps : list Step :=
  [ {| message := "🚀 Starting deployment pipeline..."; level := info |};
    {| message := "📦 Installing dependencies..."; level := info |};
    {| message := "✅ Dependencies installed successfully"; level := success |};
    {| message := "🔨 Building application..."; level := info |};
    {| message := "✅ Build completed successfully"; level := success |};
    {| message := "🧪 Running unit tests..."; level := info |};
    {| message := "✅ All tests passed (247/247)"; level := success |};
    {| message := "🚀 Deploying to production..."; level := info |};
    {| message := "✅ Deployment successful!"; level := success |} ].

Definition failureScenarios : list Scenario :=
  [ {| failAt := 3;
       steps :=
         [ {| message := "🚀 Starting deployment pipeline..."; level := info |};
           {| message := "📦 Installing dependencies..."; level := info |};
           {| message := "❌ Dependency conflict detected!"; level := error |};
           {| message := "💥 Build failed - incompatible package versions";
              level := error |} ] |};
    {| failAt := 6;
       steps :=
         [ {| message := "🚀 Starting deployment pipeline..."; level := info |};
           {| message := "📦 Installing dependencies..."; level := info |};
           {| message := "✅ Dependencies installed successfully"; level := success |};
           {| message := "🔨 Building application..."; level := info |};
           {| message := "✅ Build completed successfully"; level := success |};
           {| message := "🧪 Running unit tests..."; level := info |};
           {| message := "❌ Tests failed: 12 failures, 235 passed"; level := error |};
           {| message := "💥 Deployment aborted due to test failures";
              level := error |} ] |};
    {| failAt := 8;
       steps :=
         [ {| message := "🚀 Starting deployment pipeline..."; level := info |};
           {| message := "📦 Installing dependencies..."; level := info |};
           {| message := "✅ Dependencies installed successfully"; level := success |};
           {| message := "🔨 Building application..."; level := info |};
           {| message := "✅ Build completed successfully"; level := success |};
           {| message := "🧪 Running unit tests..."; level := info |};
           {| message := "✅ All tests passed (247/247)"; level := success |};
           {| message := "🚀 Deploying to production..."; level := info |};
           {| message := "❌ Deployment failed - server timeout"; level := error |};
           {| message := "🔄 Rolling back to previous version..."; level := warning |};
           {| message := "✅ Rollback completed"; level := info |} ] |} ].

(** What the server sends on the socket (time stamps apart). *)
Inductive Emitted :=
| deploymentLog (line : Step) (step totalSteps : option Z)
| deploymentComplete (succeeded : bool) (totalSteps duration : option Z)
    (failed : bool).

(** An emission with the time it is sent at, in ms after the request. *)
Definition Sent : Type := Z * Emitted.

(** Lines 138-151: one log every 800 ms; [i] counts the lines sent and [at_]
    is the time of the last one. *)
Fixpoint sendLogs (stepsToExecute : list Step) (i : Z) (at_ : Z) (totalSteps : Z)
  : list Sent :=
  match stepsToExecute with
  | [] => []
  | line :: rest =>
      (at_ + 800, deploymentLog line (Some (i + 1)) (Some totalSteps))
        :: sendLogs rest (i + 1) (at_ + 800) totalSteps
  end.

(** Lines 69-168. [random] is the [Math.random()] of line 129. [None]: the
    function throws before it sends anything ([scenario] undefined). *)
Definition simulateDeployment (random : Q) (shouldFail : bool) : option (list Sent) :=
  let chosen :=
    if shouldFail then
      match nth_error failureScenarios
              (Z.to_nat (Qfloor (random * inject_Z (Z.of_nat (length failureScenarios)))))
      with
      | Some scenario => Some (steps scenario, false)
      | None => None
      end
    else Some (successSteps, true) in
  match chosen with
  | Some (stepsToExecute, willSucceed) =>
      let n := Z.of_nat (length stepsToExecute) in
      Some (sendLogs stepsToExecute 0 0 n
            ++ [(n * 800 + 500,
                 deploymentComplete willSucceed (Some n) (Some (n * 800 + 500)) false)])
  | None => None
  end.

(** Lines 34-57: the acknowledgement, then the simulation; the [catch] sends
    the completion of a simulation that threw. *)
Definition onDeploymentStart (random : Q) (data : DeploymentStart) : list Sent :=
  (0, deploymentLog
        {| message := "🎮 Deployment request received! Starting pipeline...";
           level := info |} None None)
  :: match simulateDeployment random (forceFailure data || false) with
     | Some sent => sent
     | None => [(0, deploymentComplete false None None true)]
     end.

(** The completion events among the emissions, and the script's lines. *)
Definition completions (sent : list Sent) : list bool :=
  flat_map
    (fun e => match snd e with
              | deploymentComplete succeeded _ _ _ => [succeeded]
              | deploymentLog _ _ _ => []
              end) sent.

Definition scriptLines (sent : list Sent) : list Step :=
  flat_map
    (fun e => match snd e with
              | deploymentLog line (Some _) _ => [line]
              | _ => []
              end) sent.

End Server.

(** The state a trace leads to ([s] itself where the trace cannot run). *)
Definition after (trace : list (Oracle * Event)) (s : App) : App :=
  match run trace s with
  | Some s' => s'
  | None => s
  end.

(** ** Sessions used as examples *)

(** An oracle whose rolls trigger nothing: no multi-target attack, no failed
    deployment; attack intervals of 30 and 35 seconds at aggression 1. *)
Definition calm : Oracle :=
  {| aggressionRoll := 0.5;
     targetRoll := 0;
     shuffledComponents := [BUILD];
     firstVariation := 0;
     nextVariation := 0.5;
     failureRoll := 0.99 |}.

(** The player fills the three slots at once. *)
Definition fillAll : list (Oracle * Event) :=
  [(calm, drop BUILD BUILD); (calm, drop TEST TEST); (calm, drop DEPLOY DEPLOY)].

Definition filled : App := after fillAll (mount calm 0).

(** The roll that makes [startDeployment] decide on a failure. *)
Definition unlucky : Oracle :=
  {| aggressionRoll := 0.5;
     targetRoll := 0;
     shuffledComponents := [BUILD];
     firstVariation := 0;
     nextVariation := 0.5;
     failureRoll := 0 |}.

(** A deployment that fails with the first failure script (4 lines, done
    after 4 * 800 + 500 ms), from a score of 0. *)
Definition lostDeployment : list (Oracle * Event) :=
  fillAll ++ [(unlucky, clickDeploy); (calm, elapse 3700); (calm, deploymentComplete false)].

Definition lost : App := after lostDeployment (mount calm 0).

(** Aggression 5 with the roll of a rampage: below 0.10. *)
Definition rampage : Oracle :=
  {| aggressionRoll := 0.05;
     targetRoll := 0;
     shuffledComponents := [DEPLOY; BUILD; TEST];
     firstVariation := 0;
     nextVariation := 0.5;
     failureRoll := 0.99 |}.

(** Attack intervals of 38 and 39 seconds at aggression 1. *)
Definition slow : Oracle :=
  {| aggressionRoll := 0.5;
     targetRoll := 0;
     shuffledComponents := [BUILD];
     firstVariation := 0.8;
     nextVariation := 0.9;
     failureRoll := 0.99 |}.

(** Attack intervals of 30 and 39 seconds at aggression 1. *)
Definition quick : Oracle :=
  {| aggressionRoll := 0.5;
     targetRoll := 0;
     shuffledComponents := [BUILD];
     firstVariation := 0;
     nextVariation := 0.9;
     failureRoll := 0.99 |}.

(** The trace runs from the mounted component: every event is enabled. *)
Definition ran (trace : list (Oracle * Event)) : bool :=
  match run trace (mount calm 0) with
  | Some _ => true
  | None => false
  end.

(** The timers that launch attacks, as opposed to those of an attack under
    way. *)
Definition isAttackTimer (cb : Callback) : bool :=
  match cb with
  | firstAttack _ | nextSabotage _ | retrySchedule _ => true
  | warning _ | resolution _ | catIdle | pipelineReset _ => false
  end.

Definition attackTimers (s : App) : list (Z * Z) :=
  map (fun t => (timerId t, due t))
    (List.filter (fun t => isAttackTimer (callback t)) (timers s)).

(** *** A deployment started during a warning

    The slots are filled at time 0. The timer of the first effect fires after
    30 s and the cat targets BUILD; the warning starts at once. One second
    into the grace period the player deploys; the success script takes 7.7 s.
    At 35 s the grace period of BUILD ends. *)
Definition deployWhileWarned : list (Oracle * Event) :=
  fillAll
  ++ [(calm, elapse 30000); (calm, timeout 1); (calm, timeout 5);
      (calm, elapse 31000); (calm, clickDeploy);
      (calm, elapse 35000)].

Definition live : App := after deployWhileWarned (mount calm 0).

(** The grace period ends, the player puts BUILD back, and then resets. *)
Definition knockedOff : App := after [(calm, timeout 7)] live.

Definition putBack : App :=
  after [(calm, elapse 36000); (calm, timeout 6); (calm, drop BUILD BUILD)] knockedOff.

Definition resetWhileLive : App :=
  after [(calm, elapse 37000); (calm, clickReset)] putBack.

(** *** The first drop, and a reset after it *)
Definition firstDrop : list (Oracle * Event) := [(calm, drop BUILD BUILD)].

Definition dropThenReset : list (Oracle * Event) :=
  firstDrop ++ [(calm, elapse 1000); (calm, clickReset)].

Definition dropResetDrop : list (Oracle * Event) :=
  dropThenReset ++ [(calm, elapse 2000); (calm, drop BUILD BUILD)].

(** Both timers of the first drop fire: at 30 s, with its warning, and at
    35 s. *)
Definition bothFire : list (Oracle * Event) :=
  firstDrop
  ++ [(calm, elapse 30000); (calm, timeout 1); (calm, timeout 3);
      (calm, elapse 35000); (calm, timeout 2)].

(** *** A warning on an emptied slot, and the component dropped back

    BUILD is placed, then the player resets. The timer of the first drop is
    still there; it fires at 30 s with the slots it saw, and the warning for
    BUILD starts on an empty slot. At 31 s the player drops BUILD. *)
Definition warnedEmpty : list (Oracle * Event) :=
  dropThenReset
  ++ [(calm, elapse 30000); (calm, timeout 1); (calm, timeout 3); (calm, elapse 31000)].

Definition warned : App := after warnedEmpty (mount calm 0).

Definition redropped : App := after [(calm, drop BUILD BUILD)] warned.

(** *** An emergency fix, and a second warning within the grace period

    A deployment succeeds (score 100) and the pipeline is reset at 9.7 s; the
    timer of the very first drop is due at 38 s. At 10 s the player drops
    BUILD again, which starts another first-attack timer, due at 40 s. At
    38 s the cat targets BUILD; the player pays for an emergency fix at 39 s;
    at 40 s the other timer targets BUILD again. At 43 s the grace period of
    the first warning ends. *)
Definition fixThenRewarned : list (Oracle * Event) :=
  [(slow, drop BUILD BUILD); (slow, drop TEST TEST); (slow, drop DEPLOY DEPLOY);
   (slow, clickDeploy); (slow, elapse 7700); (slow, deploymentComplete true);
   (slow, elapse 9700); (slow, timeout 5);
   (slow, elapse 10000); (quick, drop BUILD BUILD);
   (quick, elapse 38000); (quick, timeout 1); (quick, timeout 9);
   (quick, elapse 39000)].

Definition beforeFix : App := after fixThenRewarned (mount calm 0).

Definition fixed : App := after [(quick, clickEmergencyFix)] beforeFix.

Definition rewarned : App :=
  after [(quick, elapse 40000); (quick, timeout 7); (quick, timeout 12);
         (quick, elapse 43000)] fixed.

Definition resolved : App := after [(quick, timeout 11)] rewarned.

(** What is seen of a slot's attack: the slot's [placed], whether it shakes,
    whether its attack is pending. *)
Definition slotView (type : ComponentType) (s : App) : bool * bool * bool :=
  (placed (get (componentStates s) type),
   bool_decide (type ∈ shakingComponents s),
   bool_decide (type ∈ pendingAttacks s)).

Definition callbackOf (id : Z) (s : App) : option (Z * Callback) :=
  option_map (fun t => (due t, callback t)) (findTimer id s).

(** The events that can change a slot, with what they do to it. *)
Definition changesSlots (ev : Event) (s s' : App) : Prop :=
  match ev with
  | drop componentType dropZoneType =>
      componentType = dropZoneType
      /\ componentStates s'
         = update (componentStates s) componentType {| placed := true |}
  | clickReset => componentStates s' = noneplaced
  | timeout id =>
      exists tm,
        findTimer id s = Some tm
        /\ ((exists target,
               callback tm = resolution target
               /\ target ∈ pendingAttacks s
               /\ placed (get (componentStates s) target) = true
               /\ componentStates s'
                  = update (componentStates s) target {| placed := false |})
            \/ (exists succeeded,
                  callback tm = pipelineReset succeeded
                  /\ componentStates s' = noneplaced))
  | _ => False
  end.

(** ** Predicates of the proofs *)

(** What a commit leaves alone: the scheduling effects write the log, the
    countdown target, the timer table and the timer handle; every other cell
    is the handler's. *)
Record sameGame (s s' : App) : Prop := {
  same_gameStats : gameStats s' = gameStats s;
  same_componentStates : componentStates s' = componentStates s;
  same_componentStatesRef : componentStatesRef s' = componentStatesRef s;
  same_socket : socket s' = socket s;
  same_catAggression : catAggression s' = catAggression s;
  same_shakingComponents : shakingComponents s' = shakingComponents s;
  same_pendingAttacks : pendingAttacks s' = pendingAttacks s;
  same_isDeploymentInProgress : isDeploymentInProgress s' = isDeploymentInProgress s;
  same_gameStartTime : gameStartTime s' = gameStartTime s;
  same_now : now s' = now s;
  same_emitted : emitted s' = emitted s
}.

Ltac frame := split; reflexivity.

(** The invariant of the reachable states. *)
Record invariant (s : App) : Prop := {
  socket_open : socket s = Some socketConnection;
  shaking_pending : shakingComponents s ⊆ pendingAttacks s;
  score_nonneg : 0 <= score (gameStats s);
  deployments_nonneg : 0 <= deployments (gameStats s);
  sabotages_nonneg : 0 <= sabotages (gameStats s);
  failedDeployments_nonneg : 0 <= failedDeployments (gameStats s);
  streak_nonneg : 0 <= streak (gameStats s)
}.

Ltac inv_cases :=
  repeat match goal with
         | |- context [if ?b then _ else _] => destruct b eqn:?
         | |- context [match ?x with Some _ => _ | None => _ end] => destruct x eqn:?
         end.

Ltac inv_solve :=
  split; cbn; try assumption; try (repeat case_match; lia); try set_solver.

(** Both scheduling effects have run against the current render. *)
Definition settled (s : App) : Prop :=
  (exists old, firstAttackMemo s = Some old
               /\ firstAttackDepsChanged old (render s) = false)
  /\ (exists old, nextAttackMemo s = Some old
                  /\ nextSabotageDepsChanged old (render s) = false).

(** The handle after an effect is the one before it or a fresh one. *)
Definition handleFrom (s s' : App) : Prop :=
  (sabotageTimeoutId s' = sabotageTimeoutId s
   \/ exists id, nextTimerId s <= id /\ sabotageTimeoutId s' = Some id)
  /\ nextTimerId s <= nextTimerId s'.

(** The effects leave the memos to [runEffects]. *)
Definition sameMemo (s s' : App) : Prop :=
  firstAttackMemo s' = firstAttackMemo s /\ nextAttackMemo s' = nextAttackMemo s.

(** ** What the render shows (lines 592-602) *)

From Stdlib Require Import Lqa.


(** Lines 600-602: the emergency-fix button is rendered when
    [shakingComponents.size > 0], with [shakingComponents.size * 25] points
    on it. *)
Definition emergencyFixShown (s : App) : bool :=
  (0 <? Z.of_nat (size (shakingComponents s))).

Definition emergencyFixPrice (s : App) : Z :=
  Z.of_nat (size (shakingComponents s)) * 25.

(** ** Further predicates of the proofs *)

(** An attack timer created in a render with a placed slot and no session
    live: its callback passes its own test (lines 209 and 338) and its
    [scheduleNextSabotage] takes the scheduling branch (line 319). *)
Definition armed (cb : Callback) : bool :=
  match cb with
  | firstAttack r | nextSabotage r =>
      (0 <? placedCount (r_componentStates r)) && negb (r_isDeploymentInProgress r)
  | retrySchedule _ => false
  | warning _ | resolution _ | catIdle | pipelineReset _ => true
  end.

(** The clock, the aggression level and the timer table of the reachable
    states. *)
Record scheduling (s : App) : Prop := {
  clock_forward : gameStartTime s <= now s;
  aggression_low : 1 <= catAggression s;
  aggression_high :
    catAggression s <= Z.min ((now s - gameStartTime s) / 1000 / 60 + 1) 5;
  timers_armed : Forall (fun tm => armed (callback tm) = true) (timers s)
}.

(** The scheduler's own condition for not scheduling (lines 192, 319, 351). *)
Definition suspended (s : App) : Prop :=
  isDeploymentInProgress s = true \/ placedCount (componentStates s) = 0.

(** The log of [s'] is the log of [s] with lines added at its end. *)
Definition extends (s s' : App) : Prop := exists more, logs s' = logs s ++ more.

(** [k] successful completion events in a row. *)
Fixpoint successes (k : nat) (closureStats : GameStats) (s : App) : App :=
  match k with
  | O => s
  | S k' => onDeploymentComplete closureStats true (successes k' closureStats s)
  end.

(** ** Further sessions used as examples *)


(** BUILD is dropped and the player resets; the clock reaches 30 s, when the
    timer of the first drop is due, with no slot filled. *)
Definition emptyAt30 : App :=
  after (dropThenReset ++ [(calm, elapse 30000)]) (mount calm 0).

Definition attackedEmpty : App := after [(calm, timeout 1)] emptyAt30.

(** * Properties *)

(** ** What a commit leaves alone *)

Lemma sameGame_refl s : sameGame s s.
Proof. split; reflexivity. Qed.

Lemma sameGame_trans s1 s2 s3 : sameGame s1 s2 -> sameGame s2 s3 -> sameGame s1 s3.
Proof. intros [] []; split; congruence. Qed.

Lemma clearTimeout_same id s : sameGame s (clearTimeout id s).
Proof. frame. Qed.

Lemma clearSabotageTimeout_same r s : sameGame s (clearSabotageTimeout r s).
Proof.
  unfold clearSabotageTimeout.
  destruct (r_sabotageTimeoutId r); [destruct (truthy _)|]; frame.
Qed.

Lemma scheduleFirstAttack_same o r s : sameGame s (scheduleFirstAttack o r s).
Proof. frame. Qed.

Lemma scheduleNextSabotage_same o r s : sameGame s (scheduleNextSabotage o r s).
Proof. unfold scheduleNextSabotage. destruct (_ || _); frame. Qed.

Lemma firstAttackEffect_same o r s : sameGame s (firstAttackEffect o r s).
Proof.
  unfold firstAttackEffect.
  destruct (_ && _); [apply scheduleFirstAttack_same | apply sameGame_refl].
Qed.

Lemma nextSabotageEffect_same o r s : sameGame s (nextSabotageEffect o r s).
Proof.
  unfold nextSabotageEffect.
  destruct (_ && _).
  - eapply sameGame_trans; [apply clearSabotageTimeout_same | apply scheduleNextSabotage_same].
  - apply clearSabotageTimeout_same.
Qed.

Lemma runEffects_same o s : sameGame s (runEffects o s).
Proof.
  unfold runEffects.
  set (r := render s).
  set (first := match firstAttackMemo s with Some old => _ | None => true end).
  set (next := match nextAttackMemo s with Some old => _ | None => true end).
  set (s1 := match nextAttackMemo s with Some old => _ | None => s end).
  assert (H1 : sameGame s s1).
  { subst s1. destruct (nextAttackMemo s); [destruct next|];
      auto using sameGame_refl, clearSabotageTimeout_same. }
  set (s2 := if first then _ else s1).
  assert (H2 : sameGame s s2).
  { subst s2. destruct first; [|exact H1].
    eapply sameGame_trans; [exact H1|].
    eapply sameGame_trans; [apply (firstAttackEffect_same o r)|]. frame. }
  destruct next; [|exact H2].
  eapply sameGame_trans; [exact H2|].
  eapply sameGame_trans; [apply (nextSabotageEffect_same o r)|]. frame.
Qed.

Lemma commit_same o s : sameGame s (commit o s).
Proof.
  unfold commit. eapply sameGame_trans; apply runEffects_same.
Qed.

(** ** Outcome reconciliation *)

(** C5. A completion event with [success = true] adds 100 to the score, and 50
    more iff the streak before it was at least 3, and adds one to
    [deployments] and to [streak]; with [success = false] it adds one to
    [failedDeployments], takes 25 off the score without going below 0, and
    sets the streak to 0. In both cases exactly one timer is registered, due
    2000 ms later, and whenever that timer's callback runs it leaves all
    three slots unplaced and both sets empty, and leaves [gameStats] as it
    finds it. The commit that follows the handler changes none of this. *)
Theorem deploymentComplete_reconciles (o : Oracle) (closureStats : GameStats) (s : App) :
  let won := onDeploymentComplete closureStats true s in
  let lost := onDeploymentComplete closureStats false s in
  (score (gameStats won)
     = score (gameStats s) + 100 + (if 3 <=? streak (gameStats s) then 50 else 0)
   /\ deployments (gameStats won) = deployments (gameStats s) + 1
   /\ streak (gameStats won) = streak (gameStats s) + 1
   /\ failedDeployments (gameStats won) = failedDeployments (gameStats s)
   /\ sabotages (gameStats won) = sabotages (gameStats s))
  /\ (failedDeployments (gameStats lost) = failedDeployments (gameStats s) + 1
      /\ score (gameStats lost) = Z.max 0 (score (gameStats s) - 25)
      /\ streak (gameStats lost) = 0
      /\ deployments (gameStats lost) = deployments (gameStats s)
      /\ sabotages (gameStats lost) = sabotages (gameStats s))
  /\ (forall success,
        let s' := onDeploymentComplete closureStats success s in
        timers s'
          = timers s ++ [{| timerId := nextTimerId s; due := now s + 2000;
                            callback := pipelineReset success |}]
        /\ isDeploymentInProgress s' = false
        /\ componentStates s' = componentStates s
        /\ gameStats (commit o s') = gameStats s'
        /\ componentStates (commit o s') = componentStates s)
  /\ (forall success later,
        invoke o (pipelineReset success) later = Some (resetPipeline success later)
        /\ componentStates (resetPipeline success later) = noneplaced
        /\ pendingAttacks (resetPipeline success later) = ∅
        /\ shakingComponents (resetPipeline success later) = ∅
        /\ gameStats (resetPipeline success later) = gameStats later
        /\ gameStats (commit o (resetPipeline success later)) = gameStats later).
Proof.
  cbn zeta. repeat split.
  - cbn. lia.
  - destruct success; reflexivity.
  - destruct success; reflexivity.
  - destruct success; reflexivity.
  - apply commit_same.
  - rewrite (same_componentStates _ _ (commit_same o _)). destruct success; reflexivity.
  - destruct success; reflexivity.
  - destruct success; reflexivity.
  - destruct success; reflexivity.
  - destruct success; reflexivity.
  - rewrite (same_gameStats _ _ (commit_same o _)). destruct success; reflexivity.
Qed.

(** ** The narrator *)

Lemma random_index (random : Q) (n : Z) :
  (0 <= random)%Q -> (random < 1)%Q -> 0 < n ->
  0 <= Qfloor (random * inject_Z n) < n.
Proof.
  intros H0 H1 Hn.
  assert (Hpos : (0 < inject_Z n)%Q).
  { change 0%Q with (inject_Z 0). rewrite <- Zlt_Qlt. exact Hn. }
  split.
  - change 0 with (Qfloor 0). apply Qfloor_resp_le.
    apply Qmult_le_0_compat; [exact H0 | apply Qlt_le_weak, Hpos].
  - rewrite Zlt_Qlt.
    eapply Qle_lt_trans; [apply Qfloor_le|].
    apply Qlt_le_trans with (1 * inject_Z n)%Q.
    + apply Qmult_lt_compat_r; assumption.
    + rewrite Qmult_1_l. apply Qle_refl.
Qed.

(** C6. Every start request is answered by exactly one completion event, and
    its [success] is the negation of the request's [forceFailure]. A request
    with [forceFailure = false] plays the success script, of 9 lines; one with
    [forceFailure = true] plays one of the three failure scripts, whose
    lengths are 4, 8 and 11. [random] is the [Math.random()] that picks the
    failure script. *)
Theorem narrator_obeys_request (random : Q) (chance : Q) :
  (0 <= random)%Q -> (random < 1)%Q ->
  let good := Server.onDeploymentStart random {| forceFailure := false; failureChance := chance |} in
  let bad := Server.onDeploymentStart random {| forceFailure := true; failureChance := chance |} in
  (Server.completions good = [true]
   /\ Server.scriptLines good = Server.successSteps
   /\ length Server.successSteps = 9%nat)
  /\ (Server.completions bad = [false]
      /\ exists scenario,
           In scenario Server.failureScenarios
           /\ Server.scriptLines bad = Server.steps scenario)
  /\ map (fun scenario => length (Server.steps scenario)) Server.failureScenarios
     = [4%nat; 8%nat; 11%nat].
Proof.
  intros H0 H1. cbn zeta. split; [|split].
  - repeat split.
  - unfold Server.onDeploymentStart, Server.simulateDeployment. cbn [forceFailure orb].
    pose proof (random_index random 3 H0 H1 ltac:(lia)) as Hi.
    change (Z.of_nat (length Server.failureScenarios)) with 3.
    assert (Hn : Z.to_nat (Qfloor (random * inject_Z 3)) = 0%nat
                 \/ Z.to_nat (Qfloor (random * inject_Z 3)) = 1%nat
                 \/ Z.to_nat (Qfloor (random * inject_Z 3)) = 2%nat) by lia.
    destruct Hn as [-> | [-> | ->]]; (split; [reflexivity|]).
    + eexists; split; [left; reflexivity | reflexivity].
    + eexists; split; [right; left; reflexivity | reflexivity].
    + eexists; split; [right; right; left; reflexivity | reflexivity].
  - reflexivity.
Qed.

Lemma narrator_obeys_request_witness :
  let random := 0.5%Q in
  let chance := 0.15%Q in
  let good := Server.onDeploymentStart random {| forceFailure := false; failureChance := chance |} in
  let bad := Server.onDeploymentStart random {| forceFailure := true; failureChance := chance |} in
  (Server.completions good = [true]
   /\ Server.scriptLines good = Server.successSteps
   /\ length Server.successSteps = 9%nat)
  /\ (Server.completions bad = [false]
      /\ exists scenario,
           In scenario Server.failureScenarios
           /\ Server.scriptLines bad = Server.steps scenario)
  /\ map (fun scenario => length (Server.steps scenario)) Server.failureScenarios
     = [4%nat; 8%nat; 11%nat].
Proof.
  apply (narrator_obeys_request 0.5 0.15); [unfold Qle; simpl; lia | reflexivity].
Defined.

(** ** Invariants of the reachable states *)


Lemma invariant_same s s' : sameGame s s' -> invariant s -> invariant s'.
Proof.
  intros Hs Hi. destruct Hi.
  split; rewrite ?(same_socket _ _ Hs), ?(same_shakingComponents _ _ Hs),
    ?(same_pendingAttacks _ _ Hs), ?(same_gameStats _ _ Hs); assumption.
Qed.



Lemma invariant_mount o startTime : invariant (mount o startTime).
Proof.
  apply (invariant_same _ _ (commit_same o _)). inv_solve.
Qed.

Lemma setTimeout_invariant cb delay s : invariant s -> invariant (snd (setTimeout cb delay s)).
Proof. intros []. inv_solve. Qed.

Lemma scheduleWarnings_invariant targets : forall index s,
  invariant s -> invariant (scheduleWarnings targets index s).
Proof.
  induction targets as [|target rest IH]; intros index s H; cbn [scheduleWarnings].
  - exact H.
  - apply IH, setTimeout_invariant, H.
Qed.

Lemma scheduleWarnings_gameStats targets : forall index s,
  gameStats (scheduleWarnings targets index s) = gameStats s.
Proof.
  induction targets as [|target rest IH]; intros index s; cbn [scheduleWarnings].
  - reflexivity.
  - rewrite IH. reflexivity.
Qed.

Lemma performCatSabotage_invariant agg o placedComponents s :
  invariant s -> invariant (performCatSabotage agg o placedComponents s).
Proof.
  intros H. unfold performCatSabotage.
  set (s1 := match snd (chooseAttack agg o placedComponents) with
             | Some line => _ | None => _ end).
  assert (H1 : invariant s1).
  { subst s1. destruct H. destruct (snd _); inv_solve. }
  pose proof (scheduleWarnings_invariant (targetsToSabotage agg o placedComponents) 0 s1 H1)
    as [].
  inv_solve.
Qed.

Lemma scheduleNextSabotage_invariant o r s :
  invariant s -> invariant (scheduleNextSabotage o r s).
Proof. apply invariant_same, scheduleNextSabotage_same. Qed.

Lemma invoke_invariant o cb s s' :
  invariant s -> invoke o cb s = Some s' -> invariant s'.
Proof.
  intros H. destruct cb; cbn [invoke]; unfold attack.
  - inv_cases; intros [= <-]; auto using performCatSabotage_invariant.
  - inv_cases; cbn [option_map]; intros [= <-];
      auto using performCatSabotage_invariant, scheduleNextSabotage_invariant.
  - intros [= <-]. auto using scheduleNextSabotage_invariant.
  - intros [= <-]. destruct H. unfold startComponentWarning. inv_solve.
  - intros [= <-]. destruct H. unfold resolveWarning. inv_cases; inv_solve.
  - intros [= <-]. destruct H. inv_solve.
  - intros [= <-]. destruct H. unfold resetPipeline. inv_cases; inv_solve.
Qed.

Lemma handle_invariant o ev s s' :
  invariant s -> handle o ev s = Some s' -> invariant s'.
Proof.
  intros H. destruct ev; cbn [handle].
  - intros [= <-]. destruct H. inv_solve.
  - intros [= <-]. destruct H. unfold handleDrop. inv_cases; inv_solve.
  - intros [= <-]. destruct H. unfold startDeployment, emit. inv_cases; inv_solve.
  - intros [= <-]. destruct H. inv_solve.
  - intros [= <-]. destruct H. unfold emergencyFix. inv_cases; inv_solve.
  - intros [= <-]. destruct H. inv_solve.
  - intros [= <-]. destruct H. inv_solve.
  - intros [= <-]. destruct H. inv_solve.
  - intros [= <-]. destruct H. unfold onDeploymentComplete. inv_cases; inv_solve.
  - intros [= <-]. destruct H. unfold gameTick. inv_cases; inv_solve.
  - inv_cases; intros [= <-]. destruct H. inv_solve.
  - destruct (findTimer id s); [|discriminate].
    destruct (due t <=? now s); [|discriminate].
    apply invoke_invariant. apply (invariant_same s); [apply clearTimeout_same | exact H].
Qed.

Lemma step_invariant o ev s s' :
  invariant s -> step o ev s = Some s' -> invariant s'.
Proof.
  intros H. unfold step. destruct (validOracle o); [|discriminate].
  destruct (handle o ev s) as [s1|] eqn:E; [|discriminate].
  intros [= <-]. apply (invariant_same _ _ (commit_same o s1)).
  eapply handle_invariant; eassumption.
Qed.

Lemma reachable_invariant s : reachable s -> invariant s.
Proof.
  induction 1; eauto using invariant_mount, step_invariant.
Qed.

(** ** Two commits settle the effects *)



Lemma firstAttackDepsChanged_refl r : firstAttackDepsChanged r r = false.
Proof.
  unfold firstAttackDepsChanged.
  rewrite !bool_decide_eq_true_2 by reflexivity.
  rewrite eqb_reflx, Z.eqb_refl. reflexivity.
Qed.

Lemma nextSabotageDepsChanged_refl r : nextSabotageDepsChanged r r = false.
Proof.
  unfold nextSabotageDepsChanged.
  rewrite !bool_decide_eq_true_2 by reflexivity.
  rewrite eqb_reflx, Z.eqb_refl. reflexivity.
Qed.

Lemma settled_runEffects o s : settled s -> runEffects o s = s.
Proof.
  intros [(old1 & E1 & D1) (old2 & E2 & D2)].
  unfold runEffects. rewrite E1, E2, D1, D2. reflexivity.
Qed.

Lemma handleFrom_refl s : handleFrom s s.
Proof. split; [left; reflexivity | lia]. Qed.

Lemma handleFrom_trans s1 s2 s3 : handleFrom s1 s2 -> handleFrom s2 s3 -> handleFrom s1 s3.
Proof.
  intros [H1 L1] [H2 L2]. split; [|lia].
  destruct H2 as [H2 | (id & Hid & H2)].
  - rewrite H2. destruct H1 as [H1 | (id & Hid & H1)]; [left | right]; eauto.
  - right. exists id. split; [lia | exact H2].
Qed.

Lemma clearSabotageTimeout_handle r s : handleFrom s (clearSabotageTimeout r s).
Proof.
  unfold clearSabotageTimeout.
  destruct (r_sabotageTimeoutId r); [destruct (truthy _)|];
    (split; cbn; [left; reflexivity | lia]).
Qed.

Lemma scheduleFirstAttack_handle o r s : handleFrom s (scheduleFirstAttack o r s).
Proof. split; cbn; [right; eexists; split; [|reflexivity]|]; lia. Qed.

Lemma scheduleNextSabotage_handle o r s : handleFrom s (scheduleNextSabotage o r s).
Proof.
  unfold scheduleNextSabotage.
  destruct (_ || _); (split; cbn; [right; eexists; split; [|reflexivity]|]; lia).
Qed.

Lemma firstAttackEffect_handle o r s : handleFrom s (firstAttackEffect o r s).
Proof.
  unfold firstAttackEffect.
  destruct (_ && _); [apply scheduleFirstAttack_handle | apply handleFrom_refl].
Qed.

Lemma nextSabotageEffect_handle o r s : handleFrom s (nextSabotageEffect o r s).
Proof.
  unfold nextSabotageEffect. destruct (_ && _).
  - eapply handleFrom_trans;
      [apply clearSabotageTimeout_handle | apply scheduleNextSabotage_handle].
  - apply clearSabotageTimeout_handle.
Qed.


Lemma clearSabotageTimeout_memo r s : sameMemo s (clearSabotageTimeout r s).
Proof.
  unfold clearSabotageTimeout.
  destruct (r_sabotageTimeoutId r); [destruct (truthy _)|]; split; reflexivity.
Qed.

Lemma firstAttackEffect_memo o r s : sameMemo s (firstAttackEffect o r s).
Proof. unfold firstAttackEffect. destruct (_ && _); split; reflexivity. Qed.

Lemma nextSabotageEffect_memo o r s : sameMemo s (nextSabotageEffect o r s).
Proof.
  unfold nextSabotageEffect, scheduleNextSabotage.
  destruct (clearSabotageTimeout_memo r s) as [H1 H2].
  destruct (_ && _); [destruct (_ || _)|]; split; cbn; assumption.
Qed.

Lemma runEffects_handle o s : handleFrom s (runEffects o s).
Proof.
  unfold runEffects.
  set (r := render s).
  set (first := match firstAttackMemo s with Some old => _ | None => true end).
  set (next := match nextAttackMemo s with Some old => _ | None => true end).
  set (s1 := match nextAttackMemo s with Some old => _ | None => s end).
  assert (H1 : handleFrom s s1).
  { subst s1. destruct (nextAttackMemo s); [destruct next|];
      auto using handleFrom_refl, clearSabotageTimeout_handle. }
  set (s2 := if first then _ else s1).
  assert (H2 : handleFrom s s2).
  { subst s2. destruct first; [|exact H1].
    eapply handleFrom_trans; [exact H1|].
    eapply handleFrom_trans; [apply (firstAttackEffect_handle o r)|].
    split; cbn; [left; reflexivity | lia]. }
  destruct next; [|exact H2].
  eapply handleFrom_trans; [exact H2|].
  eapply handleFrom_trans; [apply (nextSabotageEffect_handle o r)|].
  split; cbn; [left; reflexivity | lia].
Qed.

Lemma runEffects_memos o s :
  (exists old, firstAttackMemo (runEffects o s) = Some old
               /\ firstAttackDepsChanged old (render s) = false)
  /\ (exists old, nextAttackMemo (runEffects o s) = Some old
                  /\ nextSabotageDepsChanged old (render s) = false).
Proof.
  unfold runEffects.
  set (r := render s).
  set (first := match firstAttackMemo s with Some old => _ | None => true end).
  set (next := match nextAttackMemo s with Some old => _ | None => true end).
  set (s1 := match nextAttackMemo s with Some old => _ | None => s end).
  assert (M1 : sameMemo s s1).
  { subst s1. destruct (nextAttackMemo s); [destruct next|];
      auto using clearSabotageTimeout_memo; split; reflexivity. }
  set (s2 := if first then _ else s1).
  assert (F : exists old, firstAttackMemo s2 = Some old
                          /\ firstAttackDepsChanged old r = false).
  { subst s2. destruct first eqn:E.
    - exists r. split; [reflexivity | apply firstAttackDepsChanged_refl].
    - subst first. destruct M1 as [-> _].
      destruct (firstAttackMemo s) as [old|]; [|discriminate]. eauto. }
  assert (N : nextAttackMemo s2 = nextAttackMemo s).
  { subst s2. destruct first.
    - cbn. destruct (firstAttackEffect_memo o r s1) as [_ ->]. apply M1.
    - apply M1. }
  destruct next eqn:E.
  - split.
    + cbn. destruct (nextSabotageEffect_memo o r s2) as [-> _]. exact F.
    + exists r. split; [reflexivity | apply nextSabotageDepsChanged_refl].
  - split; [exact F|]. rewrite N. subst next.
    destruct (nextAttackMemo s) as [old|]; [|discriminate]. eauto.
Qed.

Lemma render_after s s' :
  sameGame s s' ->
  render s'
  = {| r_componentStates := r_componentStates (render s);
       r_componentStatesRef := r_componentStatesRef (render s);
       r_isDeploymentInProgress := r_isDeploymentInProgress (render s);
       r_sabotageTimeoutId := sabotageTimeoutId s';
       r_catAggression := r_catAggression (render s) |}.
Proof.
  intros []. unfold render. cbn. congruence.
Qed.

(** A third commit finds the dependencies of both effects unchanged. *)
Lemma commit_settled o s : 0 < nextTimerId s -> settled (commit o s).
Proof.
  intros Hpos. unfold commit.
  set (s1 := runEffects o s).
  destruct (runEffects_memos o s) as [(old1 & E1 & D1) (old2 & E2 & D2)].
  fold s1 in E1, E2.
  pose proof (runEffects_handle o s) as [Hid _]. fold s1 in Hid.
  pose proof (render_after s s1 (runEffects_same o s)) as R.
  assert (D2' : nextSabotageDepsChanged old2 (render s1) = false).
  { rewrite R. exact D2. }
  destruct (firstAttackDepsChanged old1 (render s1)) eqn:D1'.
  - assert (T : truthy (sabotageTimeoutId s1) = true).
    { destruct Hid as [Hid | (id & Hge & ->)].
      - exfalso. rewrite R, Hid in D1'. unfold render in D1, D1'. cbn in D1'.
        congruence.
      - cbn. apply negb_true_iff, Z.eqb_neq. lia. }
    assert (E : runEffects o s1 = with_firstAttackMemo (fun _ => Some (render s1)) s1).
    { unfold runEffects. rewrite E1, E2, D1', D2'.
      unfold firstAttackEffect.
      change (r_sabotageTimeoutId (render s1)) with (sabotageTimeoutId s1).
      rewrite T, !andb_false_r. reflexivity. }
    rewrite E. split.
    + exists (render s1). split; [reflexivity | apply firstAttackDepsChanged_refl].
    + exists old2. split; [exact E2 | exact D2'].
  - rewrite settled_runEffects; split; eauto.
Qed.

(** ** Timer handles are positive, and the reachable states are settled *)

Lemma scheduleWarnings_nextTimerId targets : forall index s,
  nextTimerId s <= nextTimerId (scheduleWarnings targets index s).
Proof.
  induction targets as [|target rest IH]; intros index s; cbn [scheduleWarnings].
  - lia.
  - etransitivity; [|apply IH]. cbn. lia.
Qed.

Lemma performCatSabotage_nextTimerId agg o placedComponents s :
  nextTimerId s <= nextTimerId (performCatSabotage agg o placedComponents s).
Proof.
  unfold performCatSabotage. cbn.
  match goal with
  | |- _ <= nextTimerId (scheduleWarnings ?t ?i ?s1) + 1 =>
      pose proof (scheduleWarnings_nextTimerId t i s1) as H;
      assert (nextTimerId s1 = nextTimerId s) as <- by (destruct (snd _); reflexivity)
  end.
  lia.
Qed.

Lemma scheduleNextSabotage_nextTimerId o r s :
  nextTimerId s <= nextTimerId (scheduleNextSabotage o r s).
Proof. apply scheduleNextSabotage_handle. Qed.

Lemma invoke_nextTimerId o cb s s' :
  invoke o cb s = Some s' -> nextTimerId s <= nextTimerId s'.
Proof.
  destruct cb; cbn [invoke]; unfold attack.
  - inv_cases; intros [= <-]; [apply performCatSabotage_nextTimerId | lia].
  - inv_cases; cbn [option_map]; intros [= <-].
    + etransitivity; [apply performCatSabotage_nextTimerId
                     | apply scheduleNextSabotage_nextTimerId].
    + apply scheduleNextSabotage_nextTimerId.
  - intros [= <-]. apply scheduleNextSabotage_nextTimerId.
  - intros [= <-]. cbn. lia.
  - intros [= <-]. unfold resolveWarning. inv_cases; cbn; lia.
  - intros [= <-]. cbn. lia.
  - intros [= <-]. unfold resetPipeline. inv_cases; cbn; lia.
Qed.

Lemma handle_nextTimerId o ev s s' :
  handle o ev s = Some s' -> nextTimerId s <= nextTimerId s'.
Proof.
  destruct ev; cbn [handle];
    try (intros [= <-];
         unfold handleDrop, startDeployment, emit, emergencyFix, onDeploymentComplete,
           gameTick;
         inv_cases; cbn; lia).
  - inv_cases; intros [= <-]. cbn. lia.
  - destruct (findTimer id s); [|discriminate].
    destruct (due t <=? now s); [|discriminate].
    apply invoke_nextTimerId.
Qed.

Lemma commit_nextTimerId o s : nextTimerId s <= nextTimerId (commit o s).
Proof.
  unfold commit.
  pose proof (runEffects_handle o s) as [_ H1].
  pose proof (runEffects_handle o (runEffects o s)) as [_ H2]. lia.
Qed.

Lemma reachable_settled s : reachable s -> settled s /\ 0 < nextTimerId s.
Proof.
  induction 1 as [o startTime | o ev s s' _ [_ IH] Hstep].
  - split.
    + apply commit_settled. cbn. lia.
    + eapply Z.lt_le_trans; [|apply commit_nextTimerId]. cbn. lia.
  - unfold step in Hstep. destruct (validOracle o); [|discriminate].
    destruct (handle o ev s) as [s1|] eqn:E; [|discriminate].
    injection Hstep as <-.
    pose proof (handle_nextTimerId _ _ _ _ E).
    split.
    + apply commit_settled. lia.
    + eapply Z.lt_le_trans; [|apply commit_nextTimerId]. lia.
Qed.

(** A handler that only writes the log needs no commit. *)
Lemma commit_addLog o message s : settled s -> commit o (addLog message s) = addLog message s.
Proof.
  intros H. unfold commit.
  assert (S : settled (addLog message s)) by exact H.
  rewrite (settled_runEffects o _ S). apply (settled_runEffects o _ S).
Qed.

(** ** Sessions *)

Lemma run_reachable trace : forall s s', reachable s -> run trace s = Some s' -> reachable s'.
Proof.
  induction trace as [|[o ev] rest IH]; intros s s' Hs; cbn [run].
  - intros [= <-]. exact Hs.
  - destruct (step o ev s) as [s1|] eqn:E; [|discriminate].
    apply IH. eapply reachable_step; eassumption.
Qed.

Lemma reachable_after trace s : reachable s -> reachable (after trace s).
Proof.
  intros Hs. unfold after. destruct (run trace s) eqn:E; [|exact Hs].
  eapply run_reachable; eassumption.
Qed.

Lemma Qltb_lt x y : Qltb x y = true <-> (x < y)%Q.
Proof.
  unfold Qltb. rewrite negb_true_iff, <- not_true_iff_false, Qle_bool_iff.
  split; [apply Qnot_le_lt | apply Qlt_not_le].
Qed.

(** ** Deployment requests *)

Lemma totalFailureChance_bounds s :
  (0.05 <= totalFailureChance s)%Q /\ (totalFailureChance s <= 0.4)%Q.
Proof.
  unfold totalFailureChance. cbn zeta. split.
  - apply Q.le_max_l.
  - apply Q.max_lub; [unfold Qle; simpl; lia | apply Q.le_min_l].
Qed.

(** C4. [startDeployment] is rejected when a slot is unfilled or a session is
    live: it writes one line to the log and nothing else, so no request is
    emitted and stats, slots and session flag keep their values. When all
    three slots are filled and no session is live it marks the session live
    and emits exactly one request, whose [forceFailure] is the outcome
    decided by the roll against the failure chance and whose [failureChance]
    lies in [0.05, 0.40]; stats and slots keep their values. The commit that
    follows changes none of this. *)
Theorem startDeployment_guarded (o : Oracle) (s : App) :
  reachable s ->
  let s' := startDeployment o s in
  let chance := totalFailureChance s in
  (allPlaced (componentStates s) && negb (isDeploymentInProgress s) = false ->
   (exists line, s' = addLog line s)
   /\ emitted s' = emitted s
   /\ gameStats s' = gameStats s
   /\ componentStates s' = componentStates s
   /\ isDeploymentInProgress s' = isDeploymentInProgress s
   /\ commit o s' = s')
  /\ (allPlaced (componentStates s) && negb (isDeploymentInProgress s) = true ->
      isDeploymentInProgress s' = true
      /\ emitted s'
         = emitted s ++ [{| forceFailure := Qltb (failureRoll o) chance;
                            failureChance := chance |}]
      /\ (0.05 <= chance)%Q /\ (chance <= 0.4)%Q
      /\ gameStats s' = gameStats s
      /\ componentStates s' = componentStates s
      /\ sameGame s' (commit o s')).
Proof.
  intros Hs. cbn zeta.
  destruct (reachable_settled s Hs) as [Hset _].
  destruct (reachable_invariant s Hs) as [Hsock _ _ _ _ _ _].
  unfold startDeployment. split.
  - intros Hrej.
    destruct (allPlaced (componentStates s)); cbn [negb].
    + destruct (isDeploymentInProgress s) eqn:E; [|discriminate].
      split; [eexists; reflexivity|].
      repeat split; [exact E | apply commit_addLog, Hset].
    + split; [eexists; reflexivity|]. repeat split. apply commit_addLog, Hset.
  - intros Hok. apply andb_true_iff in Hok as [-> Hlive].
    apply negb_true_iff in Hlive. rewrite Hlive. cbn [negb].
    unfold emit. cbn [socket with_isDeploymentInProgress addLog with_logs].
    rewrite Hsock.
    pose proof (totalFailureChance_bounds s) as [Hlo Hhi].
    repeat split; try assumption. all: apply commit_same.
Qed.

Lemma startDeployment_guarded_witness :
  reachable filled
  /\ allPlaced (componentStates filled) && negb (isDeploymentInProgress filled) = true
  /\ isDeploymentInProgress (startDeployment calm filled) = true
  /\ emitted (startDeployment calm filled)
     = emitted filled
       ++ [{| forceFailure := Qltb (failureRoll calm) (totalFailureChance filled);
              failureChance := totalFailureChance filled |}].
Proof.
  assert (Hr : reachable filled) by (apply reachable_after; constructor).
  assert (Hp : allPlaced (componentStates filled) && negb (isDeploymentInProgress filled)
               = true) by (vm_compute; reflexivity).
  destruct (startDeployment_guarded calm filled Hr) as [_ H].
  destruct (H Hp) as (H1 & H2 & _).
  exact (conj Hr (conj Hp (conj H1 H2))).
Defined.

(** ** Game statistics *)

(** C7. In every reachable state the score and the counters
    [failedDeployments], [deployments], [sabotages] and [streak] are not
    negative: no sabotage launch, emergency fix, deployment outcome or reset
    takes any of them below 0. *)
Theorem stats_never_negative (s : App) :
  reachable s ->
  0 <= score (gameStats s)
  /\ 0 <= failedDeployments (gameStats s)
  /\ 0 <= deployments (gameStats s)
  /\ 0 <= sabotages (gameStats s)
  /\ 0 <= streak (gameStats s).
Proof.
  intros Hs. destruct (reachable_invariant s Hs). repeat split; assumption.
Qed.

Lemma stats_never_negative_witness :
  ran lostDeployment = true
  /\ score (gameStats lost) = 0
  /\ failedDeployments (gameStats lost) = 1
  /\ reachable lost
  /\ 0 <= score (gameStats lost)
  /\ 0 <= failedDeployments (gameStats lost)
  /\ 0 <= deployments (gameStats lost)
  /\ 0 <= sabotages (gameStats lost)
  /\ 0 <= streak (gameStats lost).
Proof.
  assert (Hr : reachable lost) by (apply reachable_after; constructor).
  assert (H1 : ran lostDeployment = true) by (vm_compute; reflexivity).
  assert (H2 : score (gameStats lost) = 0) by (vm_compute; reflexivity).
  assert (H3 : failedDeployments (gameStats lost) = 1) by (vm_compute; reflexivity).
  exact (conj H1 (conj H2 (conj H3 (conj Hr (stats_never_negative lost Hr))))).
Defined.

(** ** Emergency fix *)

(** C8. In every reachable state with no pending attack, emergency fix is
    rejected: it writes the line that nothing needs fixing to the log and
    changes nothing else, so the score, both sets and the slots keep their
    values, and the commit that follows finds nothing to do. *)
Theorem emergencyFix_nothing_pending (o : Oracle) (s : App) :
  reachable s ->
  pendingAttacks s = ∅ ->
  emergencyFix s = addLog "❌ No components need emergency fixing!" s
  /\ score (gameStats (emergencyFix s)) = score (gameStats s)
  /\ pendingAttacks (emergencyFix s) = pendingAttacks s
  /\ shakingComponents (emergencyFix s) = shakingComponents s
  /\ componentStates (emergencyFix s) = componentStates s
  /\ commit o (emergencyFix s) = emergencyFix s.
Proof.
  intros Hs Hp.
  destruct (reachable_invariant s Hs) as [_ Hsub _ _ _ _ _].
  destruct (reachable_settled s Hs) as [Hset _].
  assert (Hsh : shakingComponents s = ∅) by set_solver.
  assert (E : emergencyFix s = addLog "❌ No components need emergency fixing!" s).
  { unfold emergencyFix. rewrite Hsh, size_empty.
    rewrite bool_decide_eq_true_2 by reflexivity. reflexivity. }
  rewrite E. repeat split. apply commit_addLog, Hset.
Qed.

Lemma emergencyFix_nothing_pending_witness :
  reachable filled
  /\ pendingAttacks filled = ∅
  /\ emergencyFix filled = addLog "❌ No components need emergency fixing!" filled
  /\ score (gameStats (emergencyFix filled)) = score (gameStats filled).
Proof.
  assert (Hr : reachable filled) by (apply reachable_after; constructor).
  assert (Hp : pendingAttacks filled = ∅) by (vm_compute; reflexivity).
  destruct (emergencyFix_nothing_pending calm filled Hr Hp) as (H1 & H2 & _).
  exact (conj Hr (conj Hp (conj H1 H2))).
Defined.

(** ** Target count of an attack *)

Lemma length_count (l : list ComponentType) :
  length l = (count BUILD l + count TEST l + count DEPLOY l)%nat.
Proof.
  unfold count. induction l as [|x l IH]; [reflexivity|].
  destruct x; cbn [List.filter];
    repeat first [ rewrite bool_decide_eq_true_2 by reflexivity
                 | rewrite bool_decide_eq_false_2 by discriminate ];
    cbn [length]; lia.
Qed.

Lemma isShuffleOf_length shuffled original :
  isShuffleOf shuffled original = true -> length shuffled = length original.
Proof.
  unfold isShuffleOf. cbn [forallb]. rewrite !andb_true_iff, !Nat.eqb_eq.
  intros (H1 & H2 & H3 & _). rewrite !length_count. lia.
Qed.

Lemma performCatSabotage_sabotages agg o placedComponents s :
  sabotages (gameStats (performCatSabotage agg o placedComponents s))
  = sabotages (gameStats s)
    + Z.of_nat (length (targetsToSabotage agg o placedComponents)).
Proof.
  unfold performCatSabotage. cbn. rewrite scheduleWarnings_gameStats.
  destruct (snd _); reflexivity.
Qed.

(** The third branch of lines 121-130 is never taken: whenever its condition
    holds, so does the condition of the branch before it. *)
Lemma componentsToSabotage_one_or_two agg o placedComponents :
  componentsToSabotage agg o placedComponents = 1
  \/ componentsToSabotage agg o placedComponents = 2.
Proof.
  unfold componentsToSabotage, chooseAttack.
  destruct ((3 <=? agg) && Qltb (aggressionRoll o) 0.2
            && (2 <=? Z.of_nat (length placedComponents))) eqn:E1; [right; reflexivity|].
  destruct ((5 <=? agg) && Qltb (aggressionRoll o) 0.1
            && (3 <=? Z.of_nat (length placedComponents))) eqn:E2; [|left; reflexivity].
  exfalso.
  apply andb_true_iff in E2 as [E2 Hlen]. apply andb_true_iff in E2 as [Hagg Hroll].
  apply Qltb_lt in Hroll.
  assert (Hroll' : Qltb (aggressionRoll o) 0.2 = true).
  { apply Qltb_lt. eapply Qlt_trans; [exact Hroll | reflexivity]. }
  assert (H3 : (3 <=? agg) = true) by lia.
  assert (H2 : (2 <=? Z.of_nat (length placedComponents)) = true) by lia.
  rewrite H3, Hroll', H2 in E1. discriminate.
Qed.

(** C2, as the code has it. With aggression at least 5, a roll below 0.10 and
    at least 3 filled slots, the branch for aggression at least 3 and a roll
    below 0.20 is tested first and taken: 2 slots are targeted, not 3, and the
    [sabotages] counter grows by 2. *)
Theorem rampage_roll_targets_two (catAggression : Z) (o : Oracle)
    (placedComponents : list ComponentType) (s : App) :
  5 <= catAggression ->
  (aggressionRoll o < 0.1)%Q ->
  (3 <= length placedComponents)%nat ->
  isShuffleOf (shuffledComponents o) placedComponents = true ->
  componentsToSabotage catAggression o placedComponents = 2
  /\ length (targetsToSabotage catAggression o placedComponents) = 2%nat
  /\ sabotages (gameStats (performCatSabotage catAggression o placedComponents s))
     = sabotages (gameStats s) + 2.
Proof.
  intros Hagg Hroll Hlen Hshuffle.
  assert (Hk : componentsToSabotage catAggression o placedComponents = 2).
  { unfold componentsToSabotage, chooseAttack.
    assert (Qltb (aggressionRoll o) 0.2 = true) as ->.
    { apply Qltb_lt. eapply Qlt_trans; [exact Hroll | reflexivity]. }
    assert ((3 <=? catAggression) = true) as -> by lia.
    assert ((2 <=? Z.of_nat (length placedComponents)) = true) as -> by lia.
    reflexivity. }
  assert (Ht : length (targetsToSabotage catAggression o placedComponents) = 2%nat).
  { unfold targetsToSabotage. rewrite Hk, length_firstn.
    rewrite (isShuffleOf_length _ _ Hshuffle). lia. }
  rewrite performCatSabotage_sabotages, Ht. auto.
Qed.

Lemma rampage_roll_targets_two_witness :
  componentsToSabotage 5 rampage [BUILD; TEST; DEPLOY] = 2
  /\ length (targetsToSabotage 5 rampage [BUILD; TEST; DEPLOY]) = 2%nat
  /\ sabotages (gameStats (performCatSabotage 5 rampage [BUILD; TEST; DEPLOY] filled))
     = sabotages (gameStats filled) + 2.
Proof.
  apply (rampage_roll_targets_two 5 rampage [BUILD; TEST; DEPLOY] filled);
    [lia | reflexivity | simpl; lia | reflexivity].
Defined.

(** ** The attack timers *)

(** C3, as the code has it. The first component dropped changes
    [componentStates] while the handle is still [null]: the effect of lines
    189-219 and the effect of lines 303-360 both run, each calls
    [window.setTimeout], and two attack timers are live, of which the handle
    names the second. A reset sets the handle to [null] and clears no timer:
    both stay live, and the next drop adds two more. Left alone, both timers
    of the first drop launch an attack, 5 seconds apart. *)
Theorem first_drop_starts_two_attack_timers :
  ran firstDrop = true
  /\ attackTimers (after firstDrop (mount calm 0)) = [(1, 30000); (2, 35000)]
  /\ sabotageTimeoutId (after firstDrop (mount calm 0)) = Some 2
  /\ ran dropThenReset = true
  /\ attackTimers (after dropThenReset (mount calm 0)) = [(1, 30000); (2, 35000)]
  /\ sabotageTimeoutId (after dropThenReset (mount calm 0)) = None
  /\ ran dropResetDrop = true
  /\ attackTimers (after dropResetDrop (mount calm 0))
     = [(1, 30000); (2, 35000); (3, 32000); (4, 37000)]
  /\ ran bothFire = true
  /\ sabotages (gameStats (after bothFire (mount calm 0))) = 2
  /\ now (after bothFire (mount calm 0)) = 35000.
Proof.
  vm_compute. repeat split; reflexivity.
Qed.

(** ** Slots during a deployment session *)

Lemma scheduleWarnings_componentStates targets : forall index s,
  componentStates (scheduleWarnings targets index s) = componentStates s.
Proof.
  induction targets as [|target rest IH]; intros index s; cbn [scheduleWarnings].
  - reflexivity.
  - rewrite IH. reflexivity.
Qed.

Lemma performCatSabotage_componentStates agg o placedComponents s :
  componentStates (performCatSabotage agg o placedComponents s) = componentStates s.
Proof.
  unfold performCatSabotage. cbn. rewrite scheduleWarnings_componentStates.
  destruct (snd _); reflexivity.
Qed.

Lemma attack_componentStates o r s s' :
  attack o r s = Some s' -> componentStates s' = componentStates s.
Proof.
  unfold attack. inv_cases; intros [= <-];
    auto using performCatSabotage_componentStates.
Qed.

Lemma handle_slots o ev s s' :
  handle o ev s = Some s' ->
  componentStates s' = componentStates s \/ changesSlots ev s s'.
Proof.
  destruct ev; cbn [handle changesSlots].
  - intros [= <-]. left. reflexivity.
  - intros [= <-]. unfold handleDrop. destruct (bool_decide_reflect (componentType = dropZoneType)).
    + right. split; [assumption|]. inv_cases; reflexivity.
    + left. reflexivity.
  - intros [= <-]. left. unfold startDeployment, emit. inv_cases; reflexivity.
  - intros [= <-]. right. reflexivity.
  - intros [= <-]. left. unfold emergencyFix. inv_cases; reflexivity.
  - intros [= <-]. left. reflexivity.
  - intros [= <-]. left. reflexivity.
  - intros [= <-]. left. reflexivity.
  - intros [= <-]. left. unfold onDeploymentComplete. inv_cases; reflexivity.
  - intros [= <-]. left. unfold gameTick. inv_cases; reflexivity.
  - inv_cases; intros [= <-]. left. reflexivity.
  - destruct (findTimer id s) as [tm|] eqn:F; [|discriminate].
    destruct (due tm <=? now s); [|discriminate].
    destruct (callback tm) as [r|r|r|target|target| |succeeded] eqn:C; cbn [invoke].
    + intros H. left. apply attack_componentStates in H. exact H.
    + destruct (attack o r (clearTimeout id s)) as [s1|] eqn:A; [|discriminate].
      cbn [option_map]. intros [= <-]. left.
      rewrite (same_componentStates _ _ (scheduleNextSabotage_same o r s1)).
      apply attack_componentStates in A. exact A.
    + intros [= <-]. left.
      rewrite (same_componentStates _ _ (scheduleNextSabotage_same o r _)).
      reflexivity.
    + intros [= <-]. left. reflexivity.
    + intros [= <-]. unfold resolveWarning.
      change (pendingAttacks (clearTimeout id s)) with (pendingAttacks s).
      change (componentStates (clearTimeout id s)) with (componentStates s).
      destruct (bool_decide_reflect (target ∈ pendingAttacks s)) as [Hin|Hout].
      * destruct (placed (get (componentStates s) target)) eqn:P.
        -- right. exists tm. split; [reflexivity|]. left. exists target. auto.
        -- left. reflexivity.
      * left. reflexivity.
    + intros [= <-]. left. reflexivity.
    + intros [= <-]. right. exists tm. split; [reflexivity|]. right. exists succeeded.
      split; [exact C|]. unfold resetPipeline. destruct succeeded; reflexivity.
Qed.

Lemma scheduleWarnings_session targets : forall index s,
  isDeploymentInProgress (scheduleWarnings targets index s) = isDeploymentInProgress s.
Proof.
  induction targets as [|target rest IH]; intros index s; cbn [scheduleWarnings].
  - reflexivity.
  - rewrite IH. reflexivity.
Qed.

Lemma performCatSabotage_session agg o placedComponents s :
  isDeploymentInProgress (performCatSabotage agg o placedComponents s)
  = isDeploymentInProgress s.
Proof.
  unfold performCatSabotage. cbn. rewrite scheduleWarnings_session.
  destruct (snd _); reflexivity.
Qed.

Lemma attack_session o r s s' :
  attack o r s = Some s' -> isDeploymentInProgress s' = isDeploymentInProgress s.
Proof.
  unfold attack. inv_cases; intros [= <-]; auto using performCatSabotage_session.
Qed.

(** Only the completion event ends a session. *)
Lemma handle_session o ev s s' :
  isDeploymentInProgress s = true ->
  handle o ev s = Some s' ->
  isDeploymentInProgress s' = true \/ exists success, ev = deploymentComplete success.
Proof.
  intros Hlive. destruct ev; cbn [handle];
    try (intros [= <-]; left;
         unfold handleDrop, startDeployment, emit, emergencyFix, gameTick;
         inv_cases; cbn; congruence).
  - intros _. right. eauto.
  - inv_cases; intros [= <-]. left. exact Hlive.
  - destruct (findTimer id s) as [tm|] eqn:F; [|discriminate].
    destruct (due tm <=? now s); [|discriminate].
    intros H. left. rewrite <- Hlive.
    destruct (callback tm) as [r|r|r|target|target| |succeeded]; cbn [invoke] in H.
    + apply attack_session in H. exact H.
    + destruct (attack o r (clearTimeout id s)) as [s1|] eqn:A; [|discriminate].
      injection H as <-.
      rewrite (same_isDeploymentInProgress _ _ (scheduleNextSabotage_same o r s1)).
      apply attack_session in A. exact A.
    + injection H as <-.
      rewrite (same_isDeploymentInProgress _ _ (scheduleNextSabotage_same o r _)).
      reflexivity.
    + injection H as <-. reflexivity.
    + injection H as <-. unfold resolveWarning. inv_cases; reflexivity.
    + injection H as <-. reflexivity.
    + injection H as <-. unfold resetPipeline. inv_cases; reflexivity.
Qed.

(** C1 as amended. While a deployment session is live, the session stays live
    until a completion event is processed, and an event either leaves every
    slot as it is, or it is one of three: a drop of a component on its own
    slot, which fills the slot; a reset (the Reset button, or the reset timer
    of an earlier completion), which empties all slots; the end of the grace
    period of an attack that is still pending on a filled slot, which empties
    that slot. [startDeployment], emergency fix, the launch of an attack, the
    start of a warning, the socket's events, the game timer and the scheduling
    effects change no slot. *)
Theorem slots_during_session (o : Oracle) (ev : Event) (s s' : App) :
  isDeploymentInProgress s = true ->
  step o ev s = Some s' ->
  (isDeploymentInProgress s' = true \/ exists success, ev = deploymentComplete success)
  /\ (componentStates s' = componentStates s \/ changesSlots ev s s').
Proof.
  intros Hlive. unfold step. destruct (validOracle o); [|discriminate].
  destruct (handle o ev s) as [s1|] eqn:H; [|discriminate].
  intros [= <-].
  pose proof (same_componentStates _ _ (commit_same o s1)) as E.
  split.
  - rewrite (same_isDeploymentInProgress _ _ (commit_same o s1)).
    eapply handle_session; eassumption.
  - destruct (handle_slots o ev s s1 H) as [Hsame | Hchange].
    + left. congruence.
    + right. destruct ev; cbn [changesSlots] in *; rewrite ?E; assumption.
Qed.

Lemma slots_during_session_witness :
  isDeploymentInProgress live = true
  /\ step calm (timeout 7) live = Some knockedOff
  /\ (isDeploymentInProgress knockedOff = true
      \/ exists success, timeout 7 = deploymentComplete success)
  /\ (componentStates knockedOff = componentStates live
      \/ changesSlots (timeout 7) live knockedOff).
Proof.
  assert (H1 : isDeploymentInProgress live = true) by (vm_compute; reflexivity).
  assert (H2 : step calm (timeout 7) live = Some knockedOff) by (vm_compute; reflexivity).
  exact (conj H1 (conj H2 (slots_during_session calm (timeout 7) live knockedOff H1 H2))).
Defined.

(** C1 as stated fails. A session is live since 31 s (the request asks for
    the success script, which completes 7.7 s later) and BUILD is in its
    grace period (timer 7, due at 35 s): the timer fires and BUILD is knocked
    off while the session is still live. The player then drops BUILD back, and the slot is
    filled again; the player clicks Reset, and all slots are emptied; the
    session is live throughout. *)
Lemma slot_changes_during_session :
  ran deployWhileWarned = true
  /\ isDeploymentInProgress live = true
  /\ map forceFailure (emitted live) = [false]
  /\ now live = 35000
  /\ slotView BUILD live = (true, true, true)
  /\ callbackOf 7 live = Some (35000, resolution BUILD)
  /\ step calm (timeout 7) live = Some knockedOff
  /\ isDeploymentInProgress knockedOff = true
  /\ slotView BUILD knockedOff = (false, false, false)
  /\ run [(calm, elapse 36000); (calm, timeout 6); (calm, drop BUILD BUILD)] knockedOff
     = Some putBack
  /\ isDeploymentInProgress putBack = true
  /\ placed (build (componentStates putBack)) = true
  /\ run [(calm, elapse 37000); (calm, clickReset)] putBack = Some resetWhileLive
  /\ isDeploymentInProgress resetWhileLive = true
  /\ componentStates resetWhileLive = noneplaced.
Proof.
  vm_compute. repeat split; reflexivity.
Qed.

(** ** Cancelled attacks *)

(** The end of a grace period whose slot is not pending touches no slot and
    clears the slot's shaking mark: what an emergency fix relies on. *)
Lemma resolution_not_pending (target : ComponentType) (s : App) :
  target ∉ pendingAttacks s ->
  componentStates (resolveWarning target s) = componentStates s
  /\ shakingComponents (resolveWarning target s) = shakingComponents s ∖ {[target]}
  /\ pendingAttacks (resolveWarning target s) = pendingAttacks s.
Proof.
  intros Hout. unfold resolveWarning.
  rewrite bool_decide_eq_false_2 by exact Hout. cbn.
  repeat split. set_solver.
Qed.

(** An accepted emergency fix empties both sets and charges 25 points for
    each shaking slot. *)
Lemma emergencyFix_accepted (s : App) :
  shakingComponents s <> ∅ ->
  Z.of_nat (size (shakingComponents s)) * 25 <= score (gameStats s) ->
  pendingAttacks (emergencyFix s) = ∅
  /\ shakingComponents (emergencyFix s) = ∅
  /\ componentStates (emergencyFix s) = componentStates s
  /\ score (gameStats (emergencyFix s))
     = score (gameStats s) - Z.of_nat (size (shakingComponents s)) * 25.
Proof.
  intros Hne Hscore. unfold emergencyFix.
  rewrite bool_decide_eq_false_2
    by (intros H; apply Hne, leibniz_equiv, size_empty_inv, H).
  destruct (score (gameStats s) <? _) eqn:E; [lia|].
  repeat split.
Qed.

(** C9, as the code has it. BUILD is warned at 38 s (grace timer 11, due at
    43 s) and the player cancels the attack with an emergency fix at 39 s,
    for 25 points. At 40 s another attack timer targets BUILD and puts it back
    in [pendingAttacks]. When timer 11 fires at 43 s it finds BUILD pending
    and knocks it off: the cancelled attack's resolution empties the slot. *)
Theorem cancelled_attack_knocks_off :
  ran fixThenRewarned = true
  /\ map forceFailure (emitted beforeFix) = [false]
  /\ now beforeFix = 39000
  /\ slotView BUILD beforeFix = (true, true, true)
  /\ callbackOf 11 beforeFix = Some (43000, resolution BUILD)
  /\ score (gameStats beforeFix) = 100
  /\ step quick clickEmergencyFix beforeFix = Some fixed
  /\ slotView BUILD fixed = (true, false, false)
  /\ score (gameStats fixed) = 75
  /\ run [(quick, elapse 40000); (quick, timeout 7); (quick, timeout 12);
          (quick, elapse 43000)] fixed = Some rewarned
  /\ slotView BUILD rewarned = (true, true, true)
  /\ callbackOf 11 rewarned = Some (43000, resolution BUILD)
  /\ now rewarned = 43000
  /\ step quick (timeout 11) rewarned = Some resolved
  /\ slotView BUILD resolved = (false, false, false).
Proof.
  vm_compute. repeat split; reflexivity.
Qed.

(** ** Dropping a component on a warned slot *)

Lemma emergencyFix_not_shaking (s : App) :
  shakingComponents s = ∅ ->
  emergencyFix s = addLog "❌ No components need emergency fixing!" s.
Proof.
  intros H. unfold emergencyFix. rewrite H, size_empty.
  rewrite bool_decide_eq_true_2 by reflexivity. reflexivity.
Qed.

(** C10. A component dropped on its own slot leaves [shakingComponents]
    without the slot and [pendingAttacks] as it was, also after the commit. A
    state with an empty [shakingComponents] and a non-empty [pendingAttacks]
    is reachable: BUILD is warned (shaking and pending), the player drops
    BUILD on its slot, and BUILD no longer shakes while its attack is still
    pending. There emergency fix is rejected: it only logs that nothing needs
    fixing, as it does in every state where nothing shakes. *)
Theorem redrop_keeps_attack_pending :
  (forall (o : Oracle) (componentType : ComponentType) (s : App),
      shakingComponents (handleDrop componentType componentType s)
      = shakingComponents s ∖ {[componentType]}
      /\ pendingAttacks (handleDrop componentType componentType s) = pendingAttacks s
      /\ shakingComponents (commit o (handleDrop componentType componentType s))
         = shakingComponents s ∖ {[componentType]}
      /\ pendingAttacks (commit o (handleDrop componentType componentType s))
         = pendingAttacks s)
  /\ (ran warnedEmpty = true
      /\ slotView BUILD warned = (false, true, true)
      /\ step calm (drop BUILD BUILD) warned = Some redropped
      /\ reachable redropped
      /\ slotView BUILD redropped = (true, false, true)
      /\ shakingComponents redropped = ∅
      /\ pendingAttacks redropped = {[BUILD]}
      /\ emergencyFix redropped
         = addLog "❌ No components need emergency fixing!" redropped)
  /\ (forall s : App,
        shakingComponents s = ∅ ->
        emergencyFix s = addLog "❌ No components need emergency fixing!" s).
Proof.
  split; [|split].
  - intros o componentType s.
    rewrite (same_shakingComponents _ _ (commit_same o _)).
    rewrite (same_pendingAttacks _ _ (commit_same o _)).
    unfold handleDrop. rewrite bool_decide_eq_true_2 by reflexivity.
    destruct (_ && _); repeat split.
  - assert (Hs : shakingComponents redropped = ∅) by (vm_compute; reflexivity).
    split; [vm_compute; reflexivity|].
    split; [vm_compute; reflexivity|].
    split; [vm_compute; reflexivity|].
    split; [apply reachable_after, reachable_after; constructor|].
    split; [vm_compute; reflexivity|].
    split; [exact Hs|].
    split; [vm_compute; reflexivity|].
    apply emergencyFix_not_shaking, Hs.
  - apply emergencyFix_not_shaking.
Qed.

(** * Further properties of the code *)

(** ** The three readings of the slots *)

Lemma currentPlacedComponents_placed (states : ComponentStates) :
  Z.of_nat (length (currentPlacedComponents states)) = placedCount states
  /\ List.NoDup (currentPlacedComponents states)
  /\ (forall type,
        In type (currentPlacedComponents states) <-> placed (get states type) = true).
Proof.
  destruct states as [[b] [t] [d]].
  split; [destruct b, t, d; reflexivity|].
  split.
  { destruct b, t, d; cbn;
      repeat (apply List.NoDup_cons; [cbn; intuition discriminate|]);
      apply List.NoDup_nil. }
  intros type. destruct type, b, t, d; cbn; intuition (discriminate || auto).
Qed.

(** The slot computations of lines 190, 205-207 and 410 agree: the number of
    placed slots is between 0 and 3 and is 3 exactly when all are placed;
    the list handed to [performCatSabotage] names each placed slot once and
    no other slot. *)
Theorem placed_slots_agree (states : ComponentStates) :
  0 <= placedCount states <= 3
  /\ (allPlaced states = true <-> placedCount states = 3)
  /\ Z.of_nat (length (currentPlacedComponents states)) = placedCount states
  /\ List.NoDup (currentPlacedComponents states)
  /\ (forall type,
        In type (currentPlacedComponents states) <-> placed (get states type) = true)
  /\ (placedCount states = 0 <-> states = noneplaced).
Proof.
  split; [|split; [|split; [|split; [|split]]]];
    try apply (currentPlacedComponents_placed states);
    destruct states as [[b] [t] [d]]; destruct b, t, d; cbn;
    first [lia | split; (discriminate || reflexivity)].
Qed.

(** ** The interval between attacks *)




(** ** Clock, aggression and the timer table *)

Lemma Forall_List_filter {A} (P : A -> Prop) (f : A -> bool) (l : list A) :
  Forall P l -> Forall P (List.filter f l).
Proof.
  induction 1 as [|x l Hx _ IH]; cbn; [constructor|].
  destruct (f x); [constructor|]; assumption.
Qed.

Ltac sched_solve :=
  split; cbn;
  try assumption; try lia;
  try (apply Forall_List_filter; assumption);
  try (apply Forall_app; split; [assumption | repeat constructor]).

Lemma scheduling_mount o startTime : scheduling (mount o startTime).
Proof.
  unfold mount. split.
  - rewrite (same_now _ _ (commit_same o _)), (same_gameStartTime _ _ (commit_same o _)).
    cbn. lia.
  - rewrite (same_catAggression _ _ (commit_same o _)). cbn. lia.
  - rewrite (same_now _ _ (commit_same o _)), (same_gameStartTime _ _ (commit_same o _)),
      (same_catAggression _ _ (commit_same o _)).
    cbn. rewrite Z.sub_diag, !Z.div_0_l by lia. lia.
  - cbn. constructor.
Qed.

Lemma clearSabotageTimeout_scheduling r s :
  scheduling s -> scheduling (clearSabotageTimeout r s).
Proof.
  intros []. unfold clearSabotageTimeout.
  destruct (r_sabotageTimeoutId r); [destruct (truthy _)|]; sched_solve.
Qed.

Lemma scheduleFirstAttack_scheduling o r s :
  armed (firstAttack r) = true -> scheduling s -> scheduling (scheduleFirstAttack o r s).
Proof.
  intros Hr []. split; cbn; try assumption.
  apply Forall_app. split; [assumption|]. repeat constructor. exact Hr.
Qed.

Lemma scheduleNextSabotage_scheduling o r s :
  armed (nextSabotage r) = true -> scheduling s -> scheduling (scheduleNextSabotage o r s).
Proof.
  intros Hr []. unfold scheduleNextSabotage.
  assert (G : (placedCount (r_componentStates r) =? 0) || r_isDeploymentInProgress r = false).
  { cbn in Hr. apply andb_true_iff in Hr as [Hp Hd].
    apply negb_true_iff in Hd. rewrite Hd, orb_false_r. lia. }
  rewrite G. split; cbn; try assumption.
  apply Forall_app. split; [assumption|]. repeat constructor. exact Hr.
Qed.

Lemma firstAttackEffect_scheduling o r s :
  scheduling s -> scheduling (firstAttackEffect o r s).
Proof.
  intros H. unfold firstAttackEffect.
  destruct (_ && _ && _) eqn:E; [|exact H].
  apply scheduleFirstAttack_scheduling; [|exact H].
  apply andb_true_iff in E as [E _]. exact E.
Qed.

Lemma nextSabotageEffect_scheduling o r s :
  scheduling s -> scheduling (nextSabotageEffect o r s).
Proof.
  intros H. unfold nextSabotageEffect.
  destruct (_ && _) eqn:E.
  - apply scheduleNextSabotage_scheduling; [exact E|].
    apply clearSabotageTimeout_scheduling, H.
  - apply clearSabotageTimeout_scheduling, H.
Qed.

Lemma runEffects_scheduling o s : scheduling s -> scheduling (runEffects o s).
Proof.
  intros H. unfold runEffects.
  set (r := render s).
  set (first := match firstAttackMemo s with Some old => _ | None => true end).
  set (next := match nextAttackMemo s with Some old => _ | None => true end).
  set (s1 := match nextAttackMemo s with Some old => _ | None => s end).
  assert (H1 : scheduling s1).
  { subst s1. destruct (nextAttackMemo s); [destruct next|];
      auto using clearSabotageTimeout_scheduling. }
  set (s2 := if first then _ else s1).
  assert (H2 : scheduling s2).
  { subst s2. destruct first; [|exact H1].
    destruct (firstAttackEffect_scheduling o r s1 H1). sched_solve. }
  destruct next; [|exact H2].
  destruct (nextSabotageEffect_scheduling o r s2 H2). sched_solve.
Qed.

Lemma commit_scheduling o s : scheduling s -> scheduling (commit o s).
Proof. intros H. unfold commit. auto using runEffects_scheduling. Qed.

Lemma scheduleWarnings_scheduling targets : forall index s,
  scheduling s -> scheduling (scheduleWarnings targets index s).
Proof.
  induction targets as [|target rest IH]; intros index s H; cbn [scheduleWarnings].
  - exact H.
  - apply IH. destruct H. sched_solve.
Qed.

Lemma performCatSabotage_scheduling agg o placedComponents s :
  scheduling s -> scheduling (performCatSabotage agg o placedComponents s).
Proof.
  intros H. unfold performCatSabotage.
  set (s1 := match snd (chooseAttack agg o placedComponents) with
             | Some line => _ | None => _ end).
  assert (H1 : scheduling s1).
  { subst s1. destruct H. destruct (snd _); sched_solve. }
  pose proof (scheduleWarnings_scheduling (targetsToSabotage agg o placedComponents) 0 s1 H1)
    as [].
  sched_solve.
Qed.

Lemma attack_scheduling o r s s' :
  scheduling s -> attack o r s = Some s' -> scheduling s'.
Proof.
  intros H. unfold attack. inv_cases; intros [= <-];
    auto using performCatSabotage_scheduling.
Qed.

Lemma In_findTimer id s tm : findTimer id s = Some tm -> In tm (timers s).
Proof.
  unfold findTimer. intros H. apply find_some in H. apply H.
Qed.

Lemma invoke_scheduling o cb s s' :
  armed cb = true -> scheduling s -> invoke o cb s = Some s' -> scheduling s'.
Proof.
  intros Hcb H. destruct cb; cbn [invoke].
  - apply attack_scheduling, H.
  - destruct (attack o r s) as [s1|] eqn:A; [|discriminate].
    cbn [option_map]. intros [= <-].
    apply scheduleNextSabotage_scheduling; [exact Hcb|].
    eapply attack_scheduling; eassumption.
  - discriminate Hcb.
  - intros [= <-]. destruct H. unfold startComponentWarning. sched_solve.
  - intros [= <-]. destruct H. unfold resolveWarning. inv_cases; sched_solve.
  - intros [= <-]. destruct H. sched_solve.
  - intros [= <-]. destruct H. unfold resetPipeline. inv_cases; sched_solve.
Qed.

Lemma gameTick_scheduling s : scheduling s -> scheduling (gameTick s).
Proof.
  intros []. unfold gameTick.
  assert (0 <= (now s - gameStartTime s) / 1000) by (apply Z.div_pos; lia).
  assert (0 <= (now s - gameStartTime s) / 1000 / 60) by (apply Z.div_pos; lia).
  destruct (negb _) eqn:E; split; cbn; try assumption; lia.
Qed.

Lemma elapse_scheduling t s : now s <= t -> scheduling s -> scheduling (with_now (fun _ => t) s).
Proof.
  intros Ht []. split; cbn; try assumption; try lia.
  assert ((now s - gameStartTime s) / 1000 / 60 <= (t - gameStartTime s) / 1000 / 60).
  { apply Z.div_le_mono; [lia|]. apply Z.div_le_mono; lia. }
  lia.
Qed.

Lemma handle_scheduling o ev s s' :
  scheduling s -> handle o ev s = Some s' -> scheduling s'.
Proof.
  intros H. destruct ev; cbn [handle].
  - intros [= <-]. destruct H. sched_solve.
  - intros [= <-]. destruct H. unfold handleDrop. inv_cases; sched_solve.
  - intros [= <-]. destruct H. unfold startDeployment, emit. inv_cases; sched_solve.
  - intros [= <-]. destruct H. sched_solve.
  - intros [= <-]. destruct H. unfold emergencyFix. inv_cases; sched_solve.
  - intros [= <-]. destruct H. sched_solve.
  - intros [= <-]. destruct H. sched_solve.
  - intros [= <-]. destruct H. sched_solve.
  - intros [= <-]. destruct H. unfold onDeploymentComplete. inv_cases; sched_solve.
  - intros [= <-]. apply gameTick_scheduling, H.
  - destruct (_ && _) eqn:E; [|discriminate]. intros [= <-].
    apply elapse_scheduling; [|exact H]. apply andb_true_iff in E as [E _]. lia.
  - destruct (findTimer id s) as [tm|] eqn:F; [|discriminate].
    destruct (due tm <=? now s); [|discriminate].
    apply invoke_scheduling.
    + destruct H as [_ _ _ Ha]. rewrite Forall_forall in Ha.
      apply (Ha tm). apply list_elem_of_In. apply In_findTimer in F. exact F.
    + destruct H. unfold clearTimeout. sched_solve.
Qed.

Lemma reachable_scheduling s : reachable s -> scheduling s.
Proof.
  induction 1 as [o startTime | o ev s s' _ IH Hstep].
  - apply scheduling_mount.
  - unfold step in Hstep. destruct (validOracle o); [|discriminate].
    destruct (handle o ev s) as [s1|] eqn:E; [|discriminate].
    injection Hstep as <-.
    apply commit_scheduling. eapply handle_scheduling; eassumption.
Qed.



(** ** Attack timers *)

Lemma targets_length agg o placedComponents :
  (1 <= length placedComponents)%nat ->
  isShuffleOf (shuffledComponents o) placedComponents = true ->
  (1 <= length (targetsToSabotage agg o placedComponents) <= 2)%nat.
Proof.
  intros Hlen Hshuffle. unfold targetsToSabotage.
  rewrite length_firstn, (isShuffleOf_length _ _ Hshuffle).
  destruct (componentsToSabotage_one_or_two agg o placedComponents) as [-> | ->]; lia.
Qed.

Lemma armed_attack o r s s' :
  armed (firstAttack r) = true ->
  attack o r s = Some s' ->
  s' = performCatSabotage (r_catAggression r) o
         (currentPlacedComponents (r_componentStates r)) s
  /\ sabotages (gameStats s) + 1 <= sabotages (gameStats s')
     <= sabotages (gameStats s) + 2.
Proof.
  intros Ha. cbn in Ha. apply andb_true_iff in Ha as [Hp Hd].
  destruct (currentPlacedComponents_placed (r_componentStates r)) as (Hlen & _).
  unfold attack. rewrite Hlen, Hp, Hd. cbn [andb].
  destruct (isShuffleOf _ _) eqn:Hs; [|discriminate].
  intros [= <-]. split; [reflexivity|].
  rewrite performCatSabotage_sabotages.
  pose proof (targets_length (r_catAggression r) o
                (currentPlacedComponents (r_componentStates r))) as Ht.
  specialize (Ht ltac:(lia) Hs). lia.
Qed.

(** Lines 204-212 and 316-347. The callback of an attack timer tests the
    slots and the session flag of the render it was created in, and every
    attack timer of a reachable state was created with a slot placed and no
    session live. So the test always passes: a timer that fires launches an
    attack on the slots it saw and adds 1 or 2 to the sabotage counter,
    whatever the slots and the session are by then; the timer that fires is
    never the 5-second retry of line 321. *)
Theorem attack_timer_always_attacks (o : Oracle) (id : Z) (tm : Timer) (s s' : App) :
  reachable s ->
  findTimer id s = Some tm ->
  isAttackTimer (callback tm) = true ->
  step o (timeout id) s = Some s' ->
  (exists r,
      (callback tm = firstAttack r \/ callback tm = nextSabotage r)
      /\ 0 < placedCount (r_componentStates r)
      /\ r_isDeploymentInProgress r = false)
  /\ sabotages (gameStats s) + 1 <= sabotages (gameStats s')
     <= sabotages (gameStats s) + 2.
Proof.
  intros Hs F Hatt Hstep.
  destruct (reachable_scheduling s Hs) as [_ _ _ Ha].
  rewrite Forall_forall in Ha.
  assert (Harmed : armed (callback tm) = true).
  { apply (Ha tm), list_elem_of_In, (In_findTimer id), F. }
  unfold step in Hstep. destruct (validOracle o); [|discriminate].
  cbn [handle] in Hstep. rewrite F in Hstep.
  destruct (due tm <=? now s); [|discriminate].
  destruct (invoke o (callback tm) (clearTimeout id s)) as [s1|] eqn:I; [|discriminate].
  injection Hstep as <-.
  rewrite (same_gameStats _ _ (commit_same o s1)).
  destruct (callback tm) as [r|r|r|target|target| |succeeded]; try discriminate Hatt.
  - cbn [invoke] in I. destruct (armed_attack o r _ _ Harmed I) as [_ Hsab].
    split; [|exact Hsab].
    exists r. cbn in Harmed. apply andb_true_iff in Harmed as [Hp Hd].
    apply negb_true_iff in Hd. split; [left; reflexivity|]. split; [lia | exact Hd].
  - cbn [invoke] in I.
    destruct (attack o r (clearTimeout id s)) as [s2|] eqn:A; [|discriminate].
    injection I as <-.
    rewrite (same_gameStats _ _ (scheduleNextSabotage_same o r s2)).
    destruct (armed_attack o r _ _ Harmed A) as [_ Hsab].
    split; [|exact Hsab].
    exists r. cbn in Harmed. apply andb_true_iff in Harmed as [Hp Hd].
    apply negb_true_iff in Hd. split; [right; reflexivity|]. split; [lia | exact Hd].
  - discriminate Harmed.
Qed.

Lemma attack_timer_always_attacks_witness :
  reachable emptyAt30
  /\ findTimer 1 emptyAt30
     = Some {| timerId := 1; due := 30000;
               callback := firstAttack
                 {| r_componentStates := update noneplaced BUILD {| placed := true |};
                    r_componentStatesRef := 1;
                    r_isDeploymentInProgress := false;
                    r_sabotageTimeoutId := None;
                    r_catAggression := 1 |} |}
  /\ componentStates emptyAt30 = noneplaced
  /\ step calm (timeout 1) emptyAt30 = Some attackedEmpty
  /\ sabotages (gameStats emptyAt30) + 1 <= sabotages (gameStats attackedEmpty)
     <= sabotages (gameStats emptyAt30) + 2.
Proof.
  assert (Hr : reachable emptyAt30) by (apply reachable_after; constructor).
  assert (F : findTimer 1 emptyAt30
     = Some {| timerId := 1; due := 30000;
               callback := firstAttack
                 {| r_componentStates := update noneplaced BUILD {| placed := true |};
                    r_componentStatesRef := 1;
                    r_isDeploymentInProgress := false;
                    r_sabotageTimeoutId := None;
                    r_catAggression := 1 |} |}) by (vm_compute; reflexivity).
  assert (Hc : componentStates emptyAt30 = noneplaced) by (vm_compute; reflexivity).
  assert (Hstep : step calm (timeout 1) emptyAt30 = Some attackedEmpty)
    by (vm_compute; reflexivity).
  exact (conj Hr (conj F (conj Hc (conj Hstep
           (proj2 (attack_timer_always_attacks calm 1 _ emptyAt30 attackedEmpty
                     Hr F eq_refl Hstep)))))).
Defined.

(** ** The scheduler is suspended *)

Lemma In_clearTimeout id s tm : In tm (timers (clearTimeout id s)) -> In tm (timers s).
Proof. cbn. intros H. apply filter_In in H. apply H. Qed.

Lemma runEffects_suspended o s :
  suspended s ->
  nextTimerId (runEffects o s) = nextTimerId s
  /\ sabotageTimeoutId (runEffects o s) = sabotageTimeoutId s
  /\ (forall tm, In tm (timers (runEffects o s)) -> In tm (timers s)).
Proof.
  intros Hsus.
  assert (G : (0 <? placedCount (r_componentStates (render s)))
              && negb (r_isDeploymentInProgress (render s)) = false).
  { cbn. destruct Hsus as [-> | ->]; [apply andb_false_r | reflexivity]. }
  assert (C : forall r x,
             nextTimerId (clearSabotageTimeout r x) = nextTimerId x
             /\ sabotageTimeoutId (clearSabotageTimeout r x) = sabotageTimeoutId x
             /\ (forall tm, In tm (timers (clearSabotageTimeout r x)) -> In tm (timers x))).
  { intros r x. unfold clearSabotageTimeout.
    destruct (r_sabotageTimeoutId r); [destruct (truthy _)|]; repeat split; auto.
    apply In_clearTimeout. }
  unfold runEffects, firstAttackEffect, nextSabotageEffect. rewrite G. cbn [andb].
  set (s1 := match nextAttackMemo s with Some old => _ | None => s end).
  assert (H1 : nextTimerId s1 = nextTimerId s
               /\ sabotageTimeoutId s1 = sabotageTimeoutId s
               /\ (forall tm, In tm (timers s1) -> In tm (timers s))).
  { subst s1. destruct (nextAttackMemo s) as [old|]; [|auto].
    destruct (nextSabotageDepsChanged old (render s)); [apply C | auto]. }
  destruct H1 as (N1 & T1 & I1).
  destruct (match firstAttackMemo s with Some old => _ | None => true end);
    destruct (match nextAttackMemo s with Some old => _ | None => true end); cbn;
    try (destruct (C (render s) s1) as (N2 & T2 & I2));
    try (destruct (C (render s) (with_firstAttackMemo (fun _ => Some (render s)) s1))
           as (N3 & T3 & I3));
    repeat split; try congruence; auto.
  all: cbn in N3, T3; congruence.
Qed.

(** Lines 189-219 and 303-360. While a session is live or no slot is filled,
    a commit schedules nothing: it registers no timer, leaves the handle as
    it is, and at most clears timers. *)
Theorem nothing_scheduled_while_suspended (o : Oracle) (s : App) :
  suspended s ->
  nextTimerId (commit o s) = nextTimerId s
  /\ sabotageTimeoutId (commit o s) = sabotageTimeoutId s
  /\ (forall tm, In tm (timers (commit o s)) -> In tm (timers s)).
Proof.
  intros Hsus. unfold commit.
  destruct (runEffects_suspended o s Hsus) as (N1 & T1 & I1).
  assert (Hsus' : suspended (runEffects o s)).
  { unfold suspended.
    rewrite (same_isDeploymentInProgress _ _ (runEffects_same o s)),
      (same_componentStates _ _ (runEffects_same o s)). exact Hsus. }
  destruct (runEffects_suspended o _ Hsus') as (N2 & T2 & I2).
  repeat split; try congruence. auto.
Qed.

Lemma nothing_scheduled_while_suspended_witness :
  suspended live
  /\ nextTimerId (commit calm live) = nextTimerId live
  /\ sabotageTimeoutId (commit calm live) = sabotageTimeoutId live
  /\ (forall tm, In tm (timers (commit calm live)) -> In tm (timers live)).
Proof.
  assert (H : suspended live) by (left; vm_compute; reflexivity).
  exact (conj H (nothing_scheduled_while_suspended calm live H)).
Defined.


(** ** What one attack does *)



(** ** The targets of an attack *)

Lemma count_cons type x l :
  count type (x :: l) = ((if bool_decide (x = type) then 1 else 0) + count type l)%nat.
Proof. unfold count. cbn [List.filter]. destruct (bool_decide _); reflexivity. Qed.

Lemma count_In type l : In type l <-> (0 < count type l)%nat.
Proof.
  induction l as [|x l IH]; [cbn; lia|].
  rewrite count_cons. cbn [In]. rewrite IH.
  destruct (bool_decide_reflect (x = type)); intuition lia.
Qed.

Lemma count_NoDup l : (forall type, (count type l <= 1)%nat) <-> List.NoDup l.
Proof.
  induction l as [|x l IH].
  - split; [constructor | cbn; lia].
  - split.
    + intros H. constructor.
      * rewrite count_In. specialize (H x). rewrite count_cons in H.
        rewrite bool_decide_eq_true_2 in H by reflexivity. lia.
      * apply IH. intros type. specialize (H type). rewrite count_cons in H. lia.
    + intros H type. inversion H as [|? ? Hx Hl]; subst.
      rewrite count_cons. apply IH with (type := type) in Hl.
      destruct (bool_decide_reflect (x = type)) as [->|]; [|lia].
      rewrite count_In in Hx. lia.
Qed.

Lemma isShuffleOf_count shuffled original type :
  isShuffleOf shuffled original = true -> count type shuffled = count type original.
Proof.
  unfold isShuffleOf. cbn [forallb]. rewrite !andb_true_iff, !Nat.eqb_eq.
  intros (H1 & H2 & H3 & _). destruct type; assumption.
Qed.

(** Lines 132-134. The targets of an attack on the placed slots are one or
    two different slots, each of them placed: no attack warns a slot twice or
    warns a slot that was empty in the render the attack reads. Their number
    is the count chosen from the roll, capped by the number of placed
    slots. *)
Theorem attack_targets (catAggression : Z) (o : Oracle) (states : ComponentStates) :
  isShuffleOf (shuffledComponents o) (currentPlacedComponents states) = true ->
  0 < placedCount states ->
  let targets := targetsToSabotage catAggression o (currentPlacedComponents states) in
  List.NoDup targets
  /\ (forall target, In target targets -> placed (get states target) = true)
  /\ (1 <= length targets <= 2)%nat
  /\ Z.of_nat (length targets)
     = Z.min (componentsToSabotage catAggression o (currentPlacedComponents states))
             (placedCount states).
Proof.
  intros Hshuffle Hpos. cbn zeta.
  destruct (currentPlacedComponents_placed states) as (Hlen & Hnd & Hin).
  assert (Hnd' : List.NoDup (shuffledComponents o)).
  { apply count_NoDup. intros type. rewrite (isShuffleOf_count _ _ type Hshuffle).
    apply count_NoDup. exact Hnd. }
  unfold targetsToSabotage.
  set (n := Z.to_nat _).
  repeat split.
  - rewrite <- (firstn_skipn n (shuffledComponents o)) in Hnd'.
    apply List.NoDup_app_remove_r in Hnd'. exact Hnd'.
  - intros target Ht. apply Hin. apply count_In.
    rewrite <- (isShuffleOf_count _ _ target Hshuffle). apply count_In.
    rewrite <- (firstn_skipn n (shuffledComponents o)). apply in_or_app. left. exact Ht.
  - apply (targets_length catAggression o (currentPlacedComponents states));
      [lia | exact Hshuffle].
  - apply (targets_length catAggression o (currentPlacedComponents states));
      [lia | exact Hshuffle].
  - subst n. rewrite length_firstn, (isShuffleOf_length _ _ Hshuffle), Hlen.
    destruct (componentsToSabotage_one_or_two catAggression o
                (currentPlacedComponents states)) as [-> | ->]; lia.
Qed.

Lemma attack_targets_witness :
  isShuffleOf (shuffledComponents rampage) (currentPlacedComponents (componentStates filled))
  = true
  /\ 0 < placedCount (componentStates filled)
  /\ targetsToSabotage 5 rampage (currentPlacedComponents (componentStates filled))
     = [DEPLOY; BUILD]
  /\ List.NoDup
       (targetsToSabotage 5 rampage (currentPlacedComponents (componentStates filled)))
  /\ (forall target,
        In target
          (targetsToSabotage 5 rampage (currentPlacedComponents (componentStates filled))) ->
        placed (get (componentStates filled) target) = true)
  /\ (1 <= length (targetsToSabotage 5 rampage
                     (currentPlacedComponents (componentStates filled))) <= 2)%nat
  /\ Z.of_nat (length (targetsToSabotage 5 rampage
                         (currentPlacedComponents (componentStates filled))))
     = Z.min (componentsToSabotage 5 rampage
                (currentPlacedComponents (componentStates filled)))
             (placedCount (componentStates filled)).
Proof.
  assert (H1 : isShuffleOf (shuffledComponents rampage)
                 (currentPlacedComponents (componentStates filled)) = true)
    by (vm_compute; reflexivity).
  assert (H2 : 0 < placedCount (componentStates filled)) by (vm_compute; reflexivity).
  assert (H3 : targetsToSabotage 5 rampage (currentPlacedComponents (componentStates filled))
               = [DEPLOY; BUILD]) by (vm_compute; reflexivity).
  exact (conj H1 (conj H2 (conj H3
           (attack_targets 5 rampage (componentStates filled) H1 H2)))).
Defined.

(** ** A warning and its resolution *)


Lemma resolveWarning_gameStats target s :
  gameStats (resolveWarning target s) = gameStats s.
Proof. unfold resolveWarning. inv_cases; reflexivity. Qed.

(** Lines 75-110 and 460-487. An emergency fix that the score covers, made
    after a warning and followed by the resolution of that warning with
    nothing in between, saves the slot: no slot changes, both sets are empty,
    and the score has paid 25 points for each slot that was shaking. *)
Theorem fix_between_warning_and_resolution (target : ComponentType) (s : App) :
  Z.of_nat (size (shakingComponents s ∪ {[target]})) * 25 <= score (gameStats s) ->
  let s' := resolveWarning target (emergencyFix (startComponentWarning target s)) in
  componentStates s' = componentStates s
  /\ shakingComponents s' = ∅
  /\ pendingAttacks s' = ∅
  /\ score (gameStats s')
     = score (gameStats s) - Z.of_nat (size (shakingComponents s ∪ {[target]})) * 25.
Proof.
  intros Hscore. cbn zeta.
  set (w := startComponentWarning target s).
  assert (Hw : shakingComponents w = shakingComponents s ∪ {[target]}
               /\ gameStats w = gameStats s
               /\ componentStates w = componentStates s) by (repeat split).
  destruct Hw as (Wsh & Wst & Wcs). clearbody w.
  assert (Hne : shakingComponents w <> ∅).
  { rewrite Wsh. clear. set_solver. }
  destruct (emergencyFix_accepted w Hne) as (Fp & Fs & Fc & Fscore).
  { rewrite Wsh, Wst. exact Hscore. }
  destruct (resolution_not_pending target (emergencyFix w)) as (Rc & Rs & Rp).
  { rewrite Fp. apply not_elem_of_empty. }
  rewrite Rc, Rs, Rp, Fc, Fs, Fp, Wcs, resolveWarning_gameStats, Fscore, Wsh, Wst.
  split; [reflexivity|]. split; [apply difference_diag_L || set_solver|].
  split; reflexivity.
Qed.

Lemma fix_between_warning_and_resolution_witness :
  Z.of_nat (size (shakingComponents fixed ∪ {[BUILD]})) * 25 <= score (gameStats fixed)
  /\ componentStates (resolveWarning BUILD (emergencyFix (startComponentWarning BUILD fixed)))
     = componentStates fixed
  /\ shakingComponents
       (resolveWarning BUILD (emergencyFix (startComponentWarning BUILD fixed))) = ∅
  /\ pendingAttacks
       (resolveWarning BUILD (emergencyFix (startComponentWarning BUILD fixed))) = ∅
  /\ score (gameStats
              (resolveWarning BUILD (emergencyFix (startComponentWarning BUILD fixed))))
     = score (gameStats fixed)
       - Z.of_nat (size (shakingComponents fixed ∪ {[BUILD]})) * 25.
Proof.
  assert (H : Z.of_nat (size (shakingComponents fixed ∪ {[BUILD]})) * 25
              <= score (gameStats fixed)) by (vm_compute; discriminate).
  exact (conj H (fix_between_warning_and_resolution BUILD fixed H)).
Defined.

(** ** Emergency fix and the score *)

Lemma size_at_most_three (X : gset ComponentType) : (size X <= 3)%nat.
Proof.
  assert (H : X ⊆ {[BUILD; TEST; DEPLOY]}).
  { intros x _. destruct x; set_solver. }
  apply subseteq_size in H.
  assert (E : size ({[BUILD; TEST; DEPLOY]} : gset ComponentType) = 3%nat)
    by (vm_compute; reflexivity).
  lia.
Qed.

(** Lines 460-470. With a slot shaking and a score below 25 points for each
    shaking slot, emergency fix is rejected: it writes the line that names
    the price and the score to the log and changes nothing else, so the
    warnings run on. The price is never more than 75 points. *)
Theorem emergencyFix_too_expensive (o : Oracle) (s : App) :
  reachable s ->
  shakingComponents s <> ∅ ->
  score (gameStats s) < emergencyFixPrice s ->
  emergencyFix s
  = addLog ("❌ Need " +:+ pretty (emergencyFixPrice s)
            +:+ " points for emergency fix! (Current: "
            +:+ pretty (score (gameStats s)) +:+ ")") s
  /\ step o clickEmergencyFix s
     = (if validOracle o then Some (emergencyFix s) else None)
  /\ 25 <= emergencyFixPrice s <= 75.
Proof.
  intros Hs Hne Hlow. unfold emergencyFixPrice in *.
  destruct (reachable_settled s Hs) as [Hset _].
  assert (Hsize : (1 <= size (shakingComponents s) <= 3)%nat).
  { split; [|apply size_at_most_three].
    destruct (size (shakingComponents s)) eqn:E; [|lia].
    exfalso. apply Hne, leibniz_equiv, size_empty_inv, E. }
  assert (E : emergencyFix s
              = addLog ("❌ Need " +:+ pretty (Z.of_nat (size (shakingComponents s)) * 25)
                        +:+ " points for emergency fix! (Current: "
                        +:+ pretty (score (gameStats s)) +:+ ")") s).
  { unfold emergencyFix. rewrite bool_decide_eq_false_2 by lia.
    destruct (score (gameStats s) <? _) eqn:L; [reflexivity | lia]. }
  split; [exact E|]. split; [|lia].
  unfold step. destruct (validOracle o); [|reflexivity].
  cbn [handle option_map]. rewrite E. f_equal. apply commit_addLog, Hset.
Qed.

Lemma emergencyFix_too_expensive_witness :
  reachable warned
  /\ shakingComponents warned = {[BUILD]}
  /\ score (gameStats warned) = 0
  /\ emergencyFixPrice warned = 25
  /\ emergencyFix warned
     = addLog ("❌ Need " +:+ pretty (emergencyFixPrice warned)
               +:+ " points for emergency fix! (Current: "
               +:+ pretty (score (gameStats warned)) +:+ ")") warned.
Proof.
  assert (Hr : reachable warned) by (apply reachable_after; constructor).
  assert (H1 : shakingComponents warned = {[BUILD]}) by (vm_compute; reflexivity).
  assert (H2 : score (gameStats warned) = 0) by (vm_compute; reflexivity).
  assert (H3 : emergencyFixPrice warned = 25) by (vm_compute; reflexivity).
  assert (Hne : shakingComponents warned <> ∅) by (rewrite H1; clear; set_solver).
  assert (Hlow : score (gameStats warned) < emergencyFixPrice warned)
    by (rewrite H2, H3; lia).
  exact (conj Hr (conj H1 (conj H2 (conj H3
           (proj1 (emergencyFix_too_expensive calm warned Hr Hne Hlow)))))).
Defined.

(** Lines 466-486 and 600-602. An emergency fix that the score covers costs
    what the button shows, 25 points for each shaking slot and never more
    than 75; the score stays at or above 0, both sets are emptied, and the
    slots are left as they are. The grace timers of the cancelled attacks
    stay in the table. *)
Theorem emergencyFix_charges (s : App) :
  shakingComponents s <> ∅ ->
  emergencyFixPrice s <= score (gameStats s) ->
  emergencyFixShown s = true
  /\ 25 <= emergencyFixPrice s <= 75
  /\ score (gameStats (emergencyFix s)) = score (gameStats s) - emergencyFixPrice s
  /\ 0 <= score (gameStats (emergencyFix s))
  /\ shakingComponents (emergencyFix s) = ∅
  /\ pendingAttacks (emergencyFix s) = ∅
  /\ componentStates (emergencyFix s) = componentStates s
  /\ timers (emergencyFix s) = timers s.
Proof.
  intros Hne Hscore. unfold emergencyFixPrice, emergencyFixShown in *.
  assert (Hsize : (1 <= size (shakingComponents s) <= 3)%nat).
  { split; [|apply size_at_most_three].
    destruct (size (shakingComponents s)) eqn:E; [|lia].
    exfalso. apply Hne, leibniz_equiv, size_empty_inv, E. }
  destruct (emergencyFix_accepted s Hne Hscore) as (Fp & Fs & Fc & Fscore).
  rewrite Fscore, Fp, Fs, Fc.
  repeat split; try lia.
  unfold emergencyFix. rewrite bool_decide_eq_false_2 by lia.
  destruct (score (gameStats s) <? _) eqn:L; [lia | reflexivity].
Qed.

Lemma emergencyFix_charges_witness :
  shakingComponents beforeFix = {[BUILD]}
  /\ emergencyFixPrice beforeFix <= score (gameStats beforeFix)
  /\ score (gameStats beforeFix) = 100
  /\ emergencyFixShown beforeFix = true
  /\ 25 <= emergencyFixPrice beforeFix <= 75
  /\ score (gameStats (emergencyFix beforeFix))
     = score (gameStats beforeFix) - emergencyFixPrice beforeFix.
Proof.
  assert (H1 : shakingComponents beforeFix = {[BUILD]}) by (vm_compute; reflexivity).
  assert (H2 : emergencyFixPrice beforeFix <= score (gameStats beforeFix))
    by (vm_compute; discriminate).
  assert (H3 : score (gameStats beforeFix) = 100) by (vm_compute; reflexivity).
  assert (Hne : shakingComponents beforeFix <> ∅) by (rewrite H1; clear; set_solver).
  destruct (emergencyFix_charges beforeFix Hne H2) as (A & B & C & _).
  exact (conj H1 (conj H2 (conj H3 (conj A (conj B C))))).
Defined.

(** ** Requests and counters along a session *)

Lemma scheduleWarnings_emitted targets : forall index s,
  emitted (scheduleWarnings targets index s) = emitted s.
Proof.
  induction targets as [|target rest IH]; intros index s; cbn [scheduleWarnings].
  - reflexivity.
  - rewrite IH. reflexivity.
Qed.

Lemma invoke_emitted o cb s s' : invoke o cb s = Some s' -> emitted s' = emitted s.
Proof.
  assert (A : forall r x x', attack o r x = Some x' -> emitted x' = emitted x).
  { intros r x x'. unfold attack. inv_cases; intros [= <-]; [|reflexivity].
    unfold performCatSabotage. cbn. rewrite scheduleWarnings_emitted.
    destruct (snd _); reflexivity. }
  destruct cb; cbn [invoke].
  - apply A.
  - destruct (attack o r s) as [s1|] eqn:E; [|discriminate]. cbn [option_map].
    intros [= <-]. rewrite (same_emitted _ _ (scheduleNextSabotage_same o r s1)).
    eapply A, E.
  - intros [= <-]. apply (same_emitted _ _ (scheduleNextSabotage_same o r s)).
  - intros [= <-]. reflexivity.
  - intros [= <-]. unfold resolveWarning. inv_cases; reflexivity.
  - intros [= <-]. reflexivity.
  - intros [= <-]. unfold resetPipeline. inv_cases; reflexivity.
Qed.

(** Lines 409-445. A request is emitted by an accepted [startDeployment] and
    by nothing else: an event that is not a click on Deploy emits nothing,
    and while a session is live no event emits anything, a click on Deploy
    included. So between a request and the completion event that ends its
    session the server is sent no second request. *)
Theorem one_request_per_session (o : Oracle) (ev : Event) (s s' : App) :
  step o ev s = Some s' ->
  (ev <> clickDeploy -> emitted s' = emitted s)
  /\ (isDeploymentInProgress s = true -> emitted s' = emitted s)
  /\ (emitted s' = emitted s
      \/ exists request,
           emitted s' = emitted s ++ [request]
           /\ isDeploymentInProgress s = false
           /\ isDeploymentInProgress s' = true).
Proof.
  unfold step. destruct (validOracle o); [|discriminate].
  destruct (handle o ev s) as [s1|] eqn:H; [|discriminate].
  intros [= <-].
  rewrite (same_emitted _ _ (commit_same o s1)),
    (same_isDeploymentInProgress _ _ (commit_same o s1)).
  destruct ev; cbn [handle] in H;
    try (injection H as <-;
         unfold handleDrop, emergencyFix, onDeploymentComplete, gameTick;
         repeat split; try (left; inv_cases; reflexivity); intros; inv_cases; reflexivity).
  - injection H as <-. unfold startDeployment, emit.
    destruct (negb (allPlaced (componentStates s))); [repeat split; auto; congruence|].
    destruct (isDeploymentInProgress s) eqn:L; [repeat split; auto; congruence|].
    split; [congruence|]. split; [discriminate|].
    cbn [socket addLog with_logs with_isDeploymentInProgress].
    destruct (socket s); cbn; [right; eexists; repeat split | left; reflexivity].
  - destruct (_ && _); [|discriminate]. injection H as <-. repeat split; auto.
  - destruct (findTimer id s) as [tm|]; [|discriminate].
    destruct (due tm <=? now s); [|discriminate].
    apply invoke_emitted in H. cbn in H. repeat split; auto.
Qed.

Lemma one_request_per_session_witness :
  step calm clickDeploy live = Some (after [(calm, clickDeploy)] live)
  /\ isDeploymentInProgress live = true
  /\ length (emitted live) = 1%nat
  /\ emitted (after [(calm, clickDeploy)] live) = emitted live.
Proof.
  assert (H1 : step calm clickDeploy live = Some (after [(calm, clickDeploy)] live))
    by (vm_compute; reflexivity).
  assert (H2 : isDeploymentInProgress live = true) by (vm_compute; reflexivity).
  assert (H3 : length (emitted live) = 1%nat) by (vm_compute; reflexivity).
  destruct (one_request_per_session calm clickDeploy live _ H1) as (_ & H & _).
  exact (conj H1 (conj H2 (conj H3 (H H2)))).
Defined.

Lemma attack_stats o r s s' :
  attack o r s = Some s' ->
  score (gameStats s') = score (gameStats s)
  /\ deployments (gameStats s') = deployments (gameStats s)
  /\ failedDeployments (gameStats s') = failedDeployments (gameStats s)
  /\ streak (gameStats s') = streak (gameStats s)
  /\ sabotages (gameStats s) <= sabotages (gameStats s').
Proof.
  unfold attack. inv_cases; intros [= <-]; [|repeat split; lia].
  unfold performCatSabotage. cbn. rewrite scheduleWarnings_gameStats.
  destruct (snd _); cbn; repeat split; lia.
Qed.

(** Lines 143-150, 256-286 and 479-482. Along any session the counters of
    deployments, failed deployments and sabotages never go down, and the
    score goes down only by an emergency fix or by a failed deployment, which
    takes at most 25 points. The streak changes only with a completion
    event. *)
Theorem counters_only_grow (o : Oracle) (ev : Event) (s s' : App) :
  step o ev s = Some s' ->
  deployments (gameStats s) <= deployments (gameStats s')
  /\ failedDeployments (gameStats s) <= failedDeployments (gameStats s')
  /\ sabotages (gameStats s) <= sabotages (gameStats s')
  /\ (score (gameStats s) <= score (gameStats s')
      \/ ev = clickEmergencyFix
      \/ (ev = deploymentComplete false
          /\ score (gameStats s) - 25 <= score (gameStats s')))
  /\ (streak (gameStats s') = streak (gameStats s)
      \/ exists success, ev = deploymentComplete success).
Proof.
  unfold step. destruct (validOracle o); [|discriminate].
  destruct (handle o ev s) as [s1|] eqn:H; [|discriminate].
  intros [= <-]. rewrite (same_gameStats _ _ (commit_same o s1)).
  destruct ev; cbn [handle] in H;
    try (injection H as <-;
         unfold handleDrop, startDeployment, emit, gameTick;
         inv_cases; cbn; repeat split; auto; lia).
  - injection H as <-. unfold emergencyFix. inv_cases; cbn; repeat split; auto; lia.
  - injection H as <-. unfold onDeploymentComplete.
    destruct success; cbn; repeat split; eauto; try lia.
    + left. destruct (3 <=? streak (gameStats s)); lia.
    + right. right. split; [reflexivity | lia].
  - destruct (_ && _); [|discriminate]. injection H as <-. cbn. repeat split; auto; lia.
  - destruct (findTimer id s) as [tm|]; [|discriminate].
    destruct (due tm <=? now s); [|discriminate].
    destruct (callback tm) as [r|r|r|target|target| |succeeded]; cbn [invoke] in H.
    + apply attack_stats in H. cbn in H. destruct H as (-> & -> & -> & -> & ?).
      repeat split; auto; lia.
    + destruct (attack o r (clearTimeout id s)) as [s2|] eqn:A; [|discriminate].
      injection H as <-.
      rewrite (same_gameStats _ _ (scheduleNextSabotage_same o r s2)).
      apply attack_stats in A. cbn in A. destruct A as (-> & -> & -> & -> & ?).
      repeat split; auto; lia.
    + injection H as <-.
      rewrite (same_gameStats _ _ (scheduleNextSabotage_same o r _)). cbn.
      repeat split; auto; lia.
    + injection H as <-. cbn. repeat split; auto; lia.
    + injection H as <-. rewrite resolveWarning_gameStats. cbn. repeat split; auto; lia.
    + injection H as <-. cbn. repeat split; auto; lia.
    + injection H as <-. unfold resetPipeline. destruct succeeded; cbn;
        repeat split; auto; lia.
Qed.

Lemma counters_only_grow_witness :
  step quick clickEmergencyFix beforeFix = Some fixed
  /\ score (gameStats beforeFix) = 100
  /\ score (gameStats fixed) = 75
  /\ deployments (gameStats beforeFix) <= deployments (gameStats fixed)
  /\ failedDeployments (gameStats beforeFix) <= failedDeployments (gameStats fixed)
  /\ sabotages (gameStats beforeFix) <= sabotages (gameStats fixed).
Proof.
  assert (H1 : step quick clickEmergencyFix beforeFix = Some fixed)
    by (vm_compute; reflexivity).
  assert (H2 : score (gameStats beforeFix) = 100) by (vm_compute; reflexivity).
  assert (H3 : score (gameStats fixed) = 75) by (vm_compute; reflexivity).
  destruct (counters_only_grow quick clickEmergencyFix beforeFix fixed H1)
    as (A & B & C & _).
  exact (conj H1 (conj H2 (conj H3 (conj A (conj B C))))).
Defined.

(** ** Streaks *)

Lemma successes_stats (k : nat) (closureStats : GameStats) (s : App) :
  0 <= streak (gameStats s) ->
  streak (gameStats (successes k closureStats s)) = streak (gameStats s) + Z.of_nat k
  /\ deployments (gameStats (successes k closureStats s))
     = deployments (gameStats s) + Z.of_nat k
  /\ failedDeployments (gameStats (successes k closureStats s))
     = failedDeployments (gameStats s)
  /\ score (gameStats (successes k closureStats s))
     = score (gameStats s) + 100 * Z.of_nat k
       + 50 * Z.max 0 (Z.of_nat k - Z.max 0 (3 - streak (gameStats s))).
Proof.
  intros Hs. induction k as [|k (IH1 & IH2 & IH3 & IH4)].
  - cbn [successes]. repeat split; lia.
  - cbn [successes]. unfold onDeploymentComplete. cbn.
    rewrite IH1, IH2, IH3, IH4.
    destruct (3 <=? streak (gameStats s) + Z.of_nat k) eqn:E; repeat split; lia.
Qed.

(** Lines 251-268. From a streak of 0, [k] successful completions in a row
    bring the streak and the deployment counter up by [k] and the score up by
    100 for each, plus 50 for each one after the third. *)
Theorem streak_of_successes (k : nat) (closureStats : GameStats) (s : App) :
  streak (gameStats s) = 0 ->
  streak (gameStats (successes k closureStats s)) = Z.of_nat k
  /\ deployments (gameStats (successes k closureStats s))
     = deployments (gameStats s) + Z.of_nat k
  /\ score (gameStats (successes k closureStats s))
     = score (gameStats s) + 100 * Z.of_nat k + 50 * Z.max 0 (Z.of_nat k - 3).
Proof.
  intros H0.
  destruct (successes_stats k closureStats s) as (H1 & H2 & _ & H4); [lia|].
  rewrite H1, H2, H4, H0. repeat split; lia.
Qed.

Lemma streak_of_successes_witness :
  streak (gameStats lost) = 0
  /\ streak (gameStats (successes 5 initialStats lost)) = 5
  /\ deployments (gameStats (successes 5 initialStats lost))
     = deployments (gameStats lost) + 5
  /\ score (gameStats (successes 5 initialStats lost))
     = score (gameStats lost) + 100 * 5 + 50 * Z.max 0 (5 - 3).
Proof.
  assert (H : streak (gameStats lost) = 0) by (vm_compute; reflexivity).
  exact (conj H (streak_of_successes 5 initialStats lost H)).
Defined.

(** ** The failure chance *)

(** Lines 424-433. The failure chance never falls when the aggression level,
    the number of failed deployments or the number of shaking slots is
    higher, and never rises with more successful deployments. *)
Theorem failure_chance_monotone (s1 s2 : App) :
  catAggression s1 <= catAggression s2 ->
  failedDeployments (gameStats s1) <= failedDeployments (gameStats s2) ->
  deployments (gameStats s2) <= deployments (gameStats s1) ->
  (size (shakingComponents s1) <= size (shakingComponents s2))%nat ->
  (totalFailureChance s1 <= totalFailureChance s2)%Q.
Proof.
  intros Ha Hf Hd Hs. unfold totalFailureChance. cbn zeta.
  apply Q.max_le_compat_l, Q.min_le_compat_l.
  assert (A : (inject_Z (catAggression s1 - 1) <= inject_Z (catAggression s2 - 1))%Q)
    by (rewrite <- Zle_Qle; lia).
  assert (F : (inject_Z (failedDeployments (gameStats s1))
               <= inject_Z (failedDeployments (gameStats s2)))%Q)
    by (rewrite <- Zle_Qle; lia).
  assert (D : (inject_Z (deployments (gameStats s2))
               <= inject_Z (deployments (gameStats s1)))%Q)
    by (rewrite <- Zle_Qle; lia).
  assert (S : (inject_Z (Z.of_nat (size (shakingComponents s1)))
               <= inject_Z (Z.of_nat (size (shakingComponents s2))))%Q)
    by (rewrite <- Zle_Qle; lia).
  lra.
Qed.

Lemma failure_chance_monotone_witness :
  (totalFailureChance fixed <= totalFailureChance beforeFix)%Q.
Proof.
  apply (failure_chance_monotone fixed beforeFix);
    vm_compute; first [discriminate | lia].
Defined.




(** ** The log *)

Lemma extends_refl s : extends s s.
Proof. exists []. symmetry. apply app_nil_r. Qed.

Lemma extends_trans s1 s2 s3 : extends s1 s2 -> extends s2 s3 -> extends s1 s3.
Proof.
  intros [m1 H1] [m2 H2]. exists (m1 ++ m2). rewrite H2, H1. symmetry. apply app_assoc.
Qed.

Lemma extends_logs s s' : logs s' = logs s -> extends s s'.
Proof. intros H. exists []. rewrite H. symmetry. apply app_nil_r. Qed.

Ltac ext_solve :=
  first [ apply extends_logs; reflexivity
        | unfold extends; cbn; eexists; rewrite <- ?app_assoc; reflexivity ].

Lemma scheduleWarnings_logs targets : forall index s,
  logs (scheduleWarnings targets index s) = logs s.
Proof.
  induction targets as [|target rest IH]; intros index s; cbn [scheduleWarnings].
  - reflexivity.
  - rewrite IH. reflexivity.
Qed.

Lemma attack_extends o r s s' : attack o r s = Some s' -> extends s s'.
Proof.
  unfold attack. inv_cases; intros [= <-]; [|apply extends_refl].
  unfold performCatSabotage, extends. cbn. rewrite scheduleWarnings_logs.
  destruct (snd _); cbn; [eexists; reflexivity | exists []; symmetry; apply app_nil_r].
Qed.

Lemma scheduleNextSabotage_extends o r s : extends s (scheduleNextSabotage o r s).
Proof. unfold scheduleNextSabotage. inv_cases; ext_solve. Qed.

Lemma clearSabotageTimeout_logs r s : logs (clearSabotageTimeout r s) = logs s.
Proof. unfold clearSabotageTimeout. inv_cases; reflexivity. Qed.

Lemma runEffects_extends o s : extends s (runEffects o s).
Proof.
  unfold runEffects.
  set (r := render s).
  set (first := match firstAttackMemo s with Some old => _ | None => true end).
  set (next := match nextAttackMemo s with Some old => _ | None => true end).
  set (s1 := match nextAttackMemo s with Some old => _ | None => s end).
  assert (H1 : extends s s1).
  { subst s1. destruct (nextAttackMemo s); [destruct next|];
      try apply extends_refl. apply extends_logs, clearSabotageTimeout_logs. }
  set (s2 := if first then _ else s1).
  assert (H2 : extends s s2).
  { subst s2. destruct first; [|exact H1].
    eapply extends_trans; [exact H1|].
    unfold firstAttackEffect, scheduleFirstAttack. inv_cases; ext_solve. }
  destruct next; [|exact H2].
  eapply extends_trans; [exact H2|].
  unfold nextSabotageEffect.
  eapply extends_trans;
    [apply extends_logs, (clearSabotageTimeout_logs r s2)|].
  destruct (_ && _).
  - eapply extends_trans; [apply scheduleNextSabotage_extends | ext_solve].
  - ext_solve.
Qed.

Lemma commit_extends o s : extends s (commit o s).
Proof.
  unfold commit. eapply extends_trans; apply runEffects_extends.
Qed.

Lemma invoke_extends o cb s s' : invoke o cb s = Some s' -> extends s s'.
Proof.
  destruct cb; cbn [invoke].
  - apply attack_extends.
  - destruct (attack o r s) as [s1|] eqn:E; [|discriminate]. cbn [option_map].
    intros [= <-]. eapply extends_trans;
      [eapply attack_extends, E | apply scheduleNextSabotage_extends].
  - intros [= <-]. apply scheduleNextSabotage_extends.
  - intros [= <-]. unfold startComponentWarning. ext_solve.
  - intros [= <-]. unfold resolveWarning. inv_cases; ext_solve.
  - intros [= <-]. ext_solve.
  - intros [= <-]. unfold resetPipeline, resetComponents. inv_cases; ext_solve.
Qed.

Lemma handle_extends o ev s s' : handle o ev s = Some s' -> extends s s'.
Proof.
  destruct ev; cbn [handle];
    try (intros [= <-];
         unfold handleDragStart, handleDrop, startDeployment, emit, resetComponents,
           emergencyFix, onConnect, onDisconnect, onDeploymentLog,
           onDeploymentComplete, gameTick;
         inv_cases; ext_solve).
  - destruct (_ && _); [|discriminate]. intros [= <-]. ext_solve.
  - destruct (findTimer id s) as [tm|]; [|discriminate].
    destruct (due tm <=? now s); [|discriminate].
    intros H. apply invoke_extends in H. exact H.
Qed.

(** Lines 60-63 and every caller of [addLog]. The log only grows: whatever
    the event, the log after it is the log before it with lines added at its
    end; no line is dropped, changed or reordered. *)
Theorem log_only_grows (o : Oracle) (ev : Event) (s s' : App) :
  step o ev s = Some s' ->
  exists more, logs s' = logs s ++ more.
Proof.
  unfold step. destruct (validOracle o); [|discriminate].
  destruct (handle o ev s) as [s1|] eqn:H; [|discriminate].
  intros [= <-].
  exact (extends_trans _ _ _ (handle_extends _ _ _ _ H) (commit_extends o s1)).
Qed.

Lemma log_only_grows_witness :
  step calm clickReset live = Some (after [(calm, clickReset)] live)
  /\ exists more, logs (after [(calm, clickReset)] live) = logs live ++ more.
Proof.
  assert (H : step calm clickReset live = Some (after [(calm, clickReset)] live))
    by (vm_compute; reflexivity).
  exact (conj H (log_only_grows calm clickReset live _ H)).
Defined.



(** ** The server's timetable *)

Lemma sendLogs_imap stepsToExecute : forall i at_ totalSteps,
  Server.sendLogs stepsToExecute i at_ totalSteps
  = imap (fun k line =>
            (at_ + 800 * (Z.of_nat k + 1),
             Server.deploymentLog line (Some (i + Z.of_nat k + 1)) (Some totalSteps)))
      stepsToExecute.
Proof.
  induction stepsToExecute as [|line rest IH]; intros i at_ totalSteps;
    cbn [Server.sendLogs imap].
  - reflexivity.
  - f_equal.
    + change (Z.of_nat 0) with 0. rewrite Z.add_0_r. reflexivity.
    + rewrite IH. apply imap_ext. intros k x _. unfold compose.
      replace (at_ + 800 + 800 * (Z.of_nat k + 1))
        with (at_ + 800 * (Z.of_nat (S k) + 1)) by lia.
      replace (i + 1 + Z.of_nat k + 1) with (i + Z.of_nat (S k) + 1) by lia.
      reflexivity.
Qed.

(** part_000, lines 34-57 and 125-165. The server acknowledges a request at
    once; line [k] of the script (from 1) follows 800 ms times [k] after the
    request and carries step [k] of [n]; the completion event follows 500 ms
    after the last line, with [duration] equal to the time it is sent at.
    The script has 9 lines when the request does not force a failure and
    between 4 and 11 otherwise, so a session lasts between 3.7 and 9.3
    seconds. [random] is the [Math.random()] of line 129. *)
Theorem server_timetable (random : Q) (data : DeploymentStart) :
  (0 <= random)%Q -> (random < 1)%Q ->
  let sent := Server.onDeploymentStart random data in
  let script := Server.scriptLines sent in
  let n := Z.of_nat (length script) in
  sent
  = (0, Server.deploymentLog
          {| Server.message := "🎮 Deployment request received! Starting pipeline...";
             Server.level := Server.info |} None None)
    :: imap (fun k line =>
               (800 * (Z.of_nat k + 1),
                Server.deploymentLog line (Some (Z.of_nat k + 1)) (Some n))) script
    ++ [(800 * n + 500,
         Server.deploymentComplete (negb (forceFailure data)) (Some n)
           (Some (800 * n + 500)) false)]
  /\ 4 <= n <= 11
  /\ (forceFailure data = false -> n = 9).
Proof.
  intros H0 H1. cbv zeta.
  unfold Server.onDeploymentStart, Server.simulateDeployment.
  destruct data as [[|] chance]; cbn [forceFailure orb].
  - pose proof (random_index random 3 H0 H1 ltac:(lia)) as Hi.
    change (Z.of_nat (length Server.failureScenarios)) with 3.
    assert (Hn : Z.to_nat (Qfloor (random * inject_Z 3)) = 0%nat
                 \/ Z.to_nat (Qfloor (random * inject_Z 3)) = 1%nat
                 \/ Z.to_nat (Qfloor (random * inject_Z 3)) = 2%nat) by lia.
    destruct Hn as [-> | [-> | ->]]; vm_compute; repeat split; congruence.
  - vm_compute; repeat split; congruence.
Qed.

Lemma server_timetable_witness :
  let sent :=
    Server.onDeploymentStart 0.5 {| forceFailure := true; failureChance := 0.15 |} in
  let script := Server.scriptLines sent in
  let n := Z.of_nat (length script) in
  sent
  = (0, Server.deploymentLog
          {| Server.message := "🎮 Deployment request received! Starting pipeline...";
             Server.level := Server.info |} None None)
    :: imap (fun k line =>
               (800 * (Z.of_nat k + 1),
                Server.deploymentLog line (Some (Z.of_nat k + 1)) (Some n))) script
    ++ [(800 * n + 500,
         Server.deploymentComplete (negb true) (Some n) (Some (800 * n + 500)) false)]
  /\ 4 <= n <= 11
  /\ (true = false -> n = 9).
Proof.
  apply (server_timetable 0.5 {| forceFailure := true; failureChance := 0.15 |});
    [unfold Qle; simpl; lia | reflexivity].
Defined.
